(** * Sequential Bayesian estimation: the [BayesianEstimation] class and the
      [get_quantile] helper of the Bayesian-estimation notebook.

    The notebook code works on one-dimensional numpy arrays of float64.
    The estimator is embedded once, over an interface of scalar
    arithmetic, and read at two instances:
    - [float64]: IEEE 754 binary64 with round-to-nearest-even, as given by
      the Standard Library's [SpecFloat] (precision 53, emax 1024).  This
      is the arithmetic the code runs on.
    - [Qc]: exact rational arithmetic, the "mathematical" reading used for
      the statements that only hold up to rounding in binary64. *)

From Stdlib Require Import ZArith QArith Qcanon Lia SpecFloat.
From stdpp Require Import base gmap strings list.

Local Open Scope nat_scope.

(** ** Python exceptions and the state-and-exception monad

    A method call either returns a value or raises; in both cases the
    object it was called on survives, in the state the call left it. *)

Inductive exn : Type :=
| IndexError   (* list index out of range *)
| ValueError   (* operands could not be broadcast together *)
| KeyError.    (* missing column label *)

Inductive outcome (A : Type) : Type :=
| Return (a : A)
| Raise (e : exn).
Arguments Return {A} a.
Arguments Raise {A} e.

Definition Py (S A : Type) : Type := S -> outcome A * S.

Definition ret {S A} (a : A) : Py S A := fun s => (Return a, s).

Definition bind {S A B} (m : Py S A) (k : A -> Py S B) : Py S B :=
  fun s => match m s with
           | (Return a, s') => k a s'
           | (Raise e, s') => (Raise e, s')
           end.

Definition lift {S A} (o : outcome A) : Py S A := fun s => (o, s).

Definition modify {S} (f : S -> S) : Py S unit := fun s => (Return tt, f s).

Declare Scope py_scope.
Delimit Scope py_scope with py.
Notation "'let*' x ':=' c 'in' k" := (bind c (fun x => k))
  (at level 10, x name, c at level 100, k at level 200) : py_scope.
Notation "'do' c 'then' k" := (bind c (fun _ => k))
  (at level 10, c at level 100, k at level 200) : py_scope.

(** ** Python lists: [l[-1]], [l.append(x)], [l[-1] = x] *)

Definition list_last {A} (l : list A) : outcome A :=
  match last l with
  | Some x => Return x
  | None => Raise IndexError
  end.

Definition list_append {A} (l : list A) (x : A) : list A := l ++ [x].

Definition list_set_last {A} (l : list A) (x : A) : outcome (list A) :=
  match l with
  | [] => Raise IndexError
  | _ => Return (<[pred (length l) := x]> l)
  end.

(** ** Scalar arithmetic and one-dimensional arrays *)

Class Scalar (F : Type) : Type := {
  fzero : F;
  fadd : F -> F -> F;
  fmul : F -> F -> F;
  fdiv : F -> F -> F;
  fle : F -> F -> bool;
  flt : F -> F -> bool;
  fof_Z : Z -> F;
  fnan : F;                  (* np.nan *)
  fis_nan : F -> bool;       (* np.isnan(x) *)
  fis_integral : F -> bool   (* np.floor(x) == x *)
}.

(** A one-dimensional [np.ndarray] of scalars. *)
Abbreviation ndarray F := (list F) (only parsing).

Section Estimator.
Context {F : Type} `{!Scalar F}.

(** [a * b] on one-dimensional arrays, with numpy's broadcasting: the
    lengths must agree unless one of them is 1, in which case that single
    element is stretched; anything else raises [ValueError]. *)
Definition ndarray_mul (a b : ndarray F) : outcome (ndarray F) :=
  match a, b with
  | _, [y] => Return (map (fun x => fmul x y) a)
  | [x], _ => Return (map (fun y => fmul x y) b)
  | _, _ =>
      if Nat.eqb (length a) (length b)
      then Return (zip_with fmul a b)
      else Raise ValueError
  end.

(** [a.sum()] for a contiguous one-dimensional array.  numpy's
    [add.reduce] starts the result at the identity 0 and adds to it what
    its inner loop returns for the whole array; for floating-point input
    that loop is a pairwise summation, not a left-to-right one:
    - fewer than 8 elements are added in order;
    - up to 128 elements are added in eight running sums [r[0..7]],
      element [i] going to [r[i mod 8]], which are then combined as
      [((r0 + r1) + (r2 + r3)) + ((r4 + r5) + (r6 + r7))]; the [n mod 8]
      elements left over are added to that in order;
    - a longer array is split in two at [n / 2] rounded down to a multiple
      of 8, and the sums of the two parts are added. *)

(** The eight running sums. *)
Definition lanes : Type := F * F * F * F * F * F * F * F.

Definition lanes_add (r x : lanes) : lanes :=
  let '(r0, r1, r2, r3, r4, r5, r6, r7) := r in
  let '(x0, x1, x2, x3, x4, x5, x6, x7) := x in
  (fadd r0 x0, fadd r1 x1, fadd r2 x2, fadd r3 x3,
   fadd r4 x4, fadd r5 x5, fadd r6 x6, fadd r7 x7).

Definition lanes_total (r : lanes) : F :=
  let '(r0, r1, r2, r3, r4, r5, r6, r7) := r in
  fadd (fadd (fadd r0 r1) (fadd r2 r3)) (fadd (fadd r4 r5) (fadd r6 r7)).

Definition lanes_list (r : lanes) : list F :=
  let '(r0, r1, r2, r3, r4, r5, r6, r7) := r in [r0; r1; r2; r3; r4; r5; r6; r7].

(** The unrolled loop: while eight elements are left, [r[j] += a[i + j]]
    for [j] in 0..7.  Returns the running sums and the elements left
    over. *)
Fixpoint sum_lanes (r : lanes) (a : ndarray F) : lanes * ndarray F :=
  match a with
  | x0 :: x1 :: x2 :: x3 :: x4 :: x5 :: x6 :: x7 :: a' =>
      sum_lanes (lanes_add r (x0, x1, x2, x3, x4, x5, x6, x7)) a'
  | _ => (r, a)
  end.

(** The sum of a block of at most 128 elements. *)
Definition pairwise_block (a : ndarray F) : F :=
  match a with
  | x0 :: x1 :: x2 :: x3 :: x4 :: x5 :: x6 :: x7 :: a' =>
      let '(r, rest) := sum_lanes (x0, x1, x2, x3, x4, x5, x6, x7) a' in
      fold_left fadd rest (lanes_total r)
  | _ => fold_left fadd a fzero
  end.

(** The recursion on longer arrays.  Both parts of a split are shorter
    than the array, so a depth of [length a] is never used up (see
    [pairwise_sum_eq] below). *)
Fixpoint pairwise_sum_from (depth : nat) (a : ndarray F) : F :=
  match depth with
  | S depth' =>
      if 128 <? length a then
        let n2 := length a / 2 - (length a / 2) mod 8 in
        fadd (pairwise_sum_from depth' (take n2 a))
             (pairwise_sum_from depth' (drop n2 a))
      else pairwise_block a
  | O => pairwise_block a
  end.

Definition pairwise_sum (a : ndarray F) : F := pairwise_sum_from (length a) a.

Definition ndarray_sum (a : ndarray F) : F := fadd fzero (pairwise_sum a).

(** [a / s] for a scalar [s]. *)
Definition ndarray_div (a : ndarray F) (s : F) : ndarray F :=
  map (fun x => fdiv x s) a.

(** A frozen [scipy.stats.rv_discrete]: only its [pmf] is used, and it is
    applied elementwise. *)
Record rv_discrete : Type := { pmf_at : F -> F }.

Definition pmf (d : rv_discrete) (k : ndarray F) : ndarray F := map (pmf_at d) k.

(** [scipy.stats.randint(low, high)]: the discrete uniform distribution
    on the integers [low .. high-1].  Its pmf is NaN everywhere when
    [high <= low], and NaN at NaN; otherwise it is [1/(high - low)] at the
    integer-valued points from [low] to [high - 1] and 0 elsewhere.
    (The bounds are compared as scalars: exact for integers that the
    scalar type holds exactly, below 2^53 in binary64.) *)
Definition randint (low high : Z) : rv_discrete :=
  {| pmf_at := fun k =>
       if negb (low <? high)%Z || fis_nan k then fnan
       else if fle (fof_Z low) k && fle k (fof_Z (high - 1)) && fis_integral k
       then fdiv (fof_Z 1) (fof_Z (high - low))
       else fzero |}.

(** [np.arange(lo, hi)], as scalars. *)
Definition arange (lo hi : Z) : ndarray F :=
  map (fun i => fof_Z (lo + Z.of_nat i)) (seq 0 (Z.to_nat (hi - lo))).

(** ** The estimator object *)

Record BayesianEstimation : Type := {
  hypotheses : ndarray F;
  prior_dist : rv_discrete;
  priors : ndarray F;
  posteriors : list (ndarray F)
}.

Definition set_posteriors (ps : list (ndarray F)) (self : BayesianEstimation)
  : BayesianEstimation :=
  {| hypotheses := hypotheses self;
     prior_dist := prior_dist self;
     priors := priors self;
     posteriors := ps |}.

(** [BayesianEstimation.__init__] *)
Definition __init__ (hypotheses : ndarray F) (prior_dist : rv_discrete)
  : BayesianEstimation :=
  let priors := pmf prior_dist hypotheses in
  {| hypotheses := hypotheses;
     prior_dist := prior_dist;
     priors := priors;
     posteriors := [priors] |}.

(** [self.posteriors[-1]] *)
Definition posteriors_last : Py BayesianEstimation (ndarray F) :=
  fun self => (list_last (posteriors self), self).

(** [self.posteriors.append(x)] *)
Definition posteriors_append (x : ndarray F) : Py BayesianEstimation unit :=
  modify (fun self => set_posteriors (list_append (posteriors self) x) self).

(** [self.posteriors[-1] = x] *)
Definition posteriors_set_last (x : ndarray F) : Py BayesianEstimation unit :=
  fun self =>
    match list_set_last (posteriors self) x with
    | Return ps => (Return tt, set_posteriors ps self)
    | Raise e => (Raise e, self)
    end.

(** [BayesianEstimation.update] *)
Definition update (likelihood : ndarray F) : Py BayesianEstimation (ndarray F) :=
  (let* last := posteriors_last in
   let* unnorm := lift (ndarray_mul last likelihood) in
   do posteriors_append unnorm then
   let* num := posteriors_last in
   let* arr := posteriors_last in
   do posteriors_set_last (ndarray_div num (ndarray_sum arr)) then
   posteriors_last)%py.

(** Calling [update] with each likelihood of a list in turn; the first
    exception stops the sequence.  Returns the arrays the calls
    returned. *)
Fixpoint updates (ls : list (ndarray F)) : Py BayesianEstimation (list (ndarray F)) :=
  match ls with
  | [] => ret []
  | l :: ls' =>
      (let* p := update l in
       let* ps := updates ls' in
       ret (p :: ps))%py
  end.

(** What the spec calls the update of [history[-1] = p] with [l]:
    the elementwise product, its total, and the quotient. *)
Definition unnormalized (p l : ndarray F) : ndarray F := zip_with fmul p l.
Definition total (p l : ndarray F) : F := ndarray_sum (unnormalized p l).
Definition normalized (p l : ndarray F) : ndarray F :=
  ndarray_div (unnormalized p l) (total p l).

End Estimator.

Arguments lanes F : clear implicits.
Arguments ndarray_sum {F _} a : simpl never.
Arguments rv_discrete F : clear implicits.
Arguments BayesianEstimation F : clear implicits.

(** ** The two arithmetics *)

(** *** IEEE 754 binary64 *)

Definition float64 : Type := spec_float.

Definition prec : Z := 53.
Definition emax : Z := 1024.

Definition f64_add : float64 -> float64 -> float64 := SFadd prec emax.
Definition f64_sub : float64 -> float64 -> float64 := SFsub prec emax.
Definition f64_mul : float64 -> float64 -> float64 := SFmul prec emax.
Definition f64_div : float64 -> float64 -> float64 := SFdiv prec emax.

(** [x >= y], [x <= y], [x < y]; all false when either side is NaN. *)
Definition f64_ge (x y : float64) : bool := SFleb y x.
Definition f64_le (x y : float64) : bool := SFleb x y.
Definition f64_lt (x y : float64) : bool := SFltb x y.

(** The float nearest to an integer, and to a quotient of two integers:
    a decimal literal such as [0.1] denotes the float nearest to 1/10,
    which is also what the correctly rounded division [1.0 / 10.0]
    yields. *)
Definition f64_of_Z (z : Z) : float64 := binary_normalize prec emax z 0 false.
Definition f64_frac (n d : Z) : float64 := f64_div (f64_of_Z n) (f64_of_Z d).

Definition np_nan : float64 := S754_nan.

Definition is_nan (x : float64) : bool :=
  match x with S754_nan => true | _ => false end.

Definition is_zero (x : float64) : bool :=
  match x with S754_zero _ => true | _ => false end.

(** [math.isfinite] *)
Definition is_finite (x : float64) : bool :=
  match x with S754_zero _ | S754_finite _ _ _ => true | _ => false end.


(** The spec's degenerate total: zero, or not finite. *)
Definition degenerate (x : float64) : bool :=
  is_zero x || negb (is_finite x).

(** [np.floor(x) == x]: true of the integers and of the infinities. *)
Definition is_integral (x : float64) : bool :=
  match x with
  | S754_zero _ | S754_infinity _ => true
  | S754_nan => false
  | S754_finite _ m e => (0 <=? e)%Z || (Z.pos m mod 2 ^ (- e) =? 0)%Z
  end.

#[global] Instance float64_Scalar : Scalar float64 := {|
  fzero := S754_zero false;
  fadd := f64_add;
  fmul := f64_mul;
  fdiv := f64_div;
  fle := f64_le;
  flt := f64_lt;
  fof_Z := f64_of_Z;
  fnan := np_nan;
  fis_nan := is_nan;
  fis_integral := is_integral
|}.

(** *** Exact rationals

    [Qc] divides by zero to 0 where binary64 gives NaN or an infinity, so
    this reading is only used for updates whose total is not zero.  It has
    no NaN: nothing is NaN, and 0 stands where binary64 has one. *)

#[global] Instance Qc_Scalar : Scalar Qc := {|
  fzero := 0%Qc;
  fadd := Qcplus;
  fmul := Qcmult;
  fdiv := Qcdiv;
  fle := fun x y => bool_decide (x <= y)%Qc;
  flt := fun x y => bool_decide (x < y)%Qc;
  fof_Z := fun z => Q2Qc (inject_Z z);
  fnan := 0%Qc;
  fis_nan := fun _ => false;
  fis_integral := fun x => Pos.eqb (Qden (this x)) 1
|}.

Definition Qc_frac (n d : Z) : Qc := (Q2Qc (inject_Z n) / Q2Qc (inject_Z d))%Qc.

(** ** Data frames and the quantile helper *)

(** A row of a data frame, as [iterrows] yields it: column label to
    value.  A frame is its rows in index order. *)
Abbreviation DataFrame := (list (gmap string float64)) (only parsing).

(** [pd.DataFrame.from_dict(d)] for a dict of equally long columns, given
    as the list of its items in insertion order. *)
Fixpoint from_dict (d : list (string * ndarray float64)) : outcome DataFrame :=
  match d with
  | [] => Return []
  | (label, col) :: d' =>
      match from_dict d' with
      | Raise e => Raise e
      | Return rows =>
          match d' with
          | [] => Return (map (fun v => {[ label := v ]}) col)
          | _ =>
              if Nat.eqb (length col) (length rows)
              then Return (zip_with (fun v row => <[label := v]> row) col rows)
              else Raise ValueError
          end
      end
  end.

(** [row[col]] *)
Definition getitem (row : gmap string float64) (col : string) : outcome float64 :=
  match row !! col with
  | Some v => Return v
  | None => Raise KeyError
  end.

(** The [for] loop of [get_quantile], from accumulator [acc_probs] on. *)
Fixpoint get_quantile_loop (rows : DataFrame) (col_probs col_hypos : string)
    (desired_prob acc_probs : float64) : outcome float64 :=
  match rows with
  | [] => Return np_nan
  | row :: rows' =>
      match getitem row col_probs with
      | Raise e => Raise e
      | Return v =>
          let acc_probs := f64_add acc_probs v in
          if f64_ge acc_probs desired_prob
          then getitem row col_hypos
          else get_quantile_loop rows' col_probs col_hypos desired_prob acc_probs
      end
  end.

(** [get_quantile] *)
Definition get_quantile (df_posterior : DataFrame) (col_probs col_hypos : string)
    (desired_prob : float64) : outcome float64 :=
  get_quantile_loop df_posterior col_probs col_hypos desired_prob (S754_zero false).

(** The notebook's frame for an estimator: its hypotheses next to its
    latest posterior.  ([iterrows] yields each row as one float64 series,
    so integer hypotheses are read back as floats: hypotheses are float64
    here from the start.) *)
Definition df_of (hypos probs : ndarray float64) : outcome DataFrame :=
  from_dict [("number of rabbits"%string, hypos); ("probabilities"%string, probs)].

(** [my_rabbit_problem = BayesianEstimation(np.arange(1, 11), randint(4, 11))] *)
Definition my_rabbit_problem : BayesianEstimation float64 :=
  __init__ (arange 1 11) (randint 4 11).

(** ** Successful updates

    The spec calls an update an error when the total of the elementwise
    product is degenerate; the code has no such notion, so it is defined
    here next to the code, from the total [update] divides by. *)

Section Success.
Context {F : Type} `{!Scalar F}.
Variable bad : F -> bool.

(** The sum [update] divides by: [(self.posteriors[-1] * likelihood).sum()]. *)
Definition update_total (likelihood : ndarray F) (self : BayesianEstimation F)
  : outcome F :=
  match list_last (posteriors self) with
  | Return p =>
      match ndarray_mul p likelihood with
      | Return u => Return (ndarray_sum u)
      | Raise e => Raise e
      end
  | Raise e => Raise e
  end.

Definition successful_with (likelihood : ndarray F) (self : BayesianEstimation F)
  : bool :=
  match update_total likelihood self with
  | Return t => negb (bad t)
  | Raise _ => false
  end.

Fixpoint all_successful_with (ls : list (ndarray F)) (self : BayesianEstimation F)
  : bool :=
  match ls with
  | [] => true
  | l :: ls' =>
      successful_with l self && all_successful_with ls' (snd (update l self))
  end.

End Success.

(** In binary64 a total is fit to divide by when it is finite and not
    zero; in exact arithmetic, when it is not zero. *)
Definition successful := successful_with degenerate.
Definition all_successful := all_successful_with degenerate.

Definition Qc_is_zero (t : Qc) : bool := bool_decide (t = 0%Qc).
Definition successfulQ := successful_with Qc_is_zero.
Definition all_successfulQ := all_successful_with Qc_is_zero.

(** Entry [i] of a snapshot is a zero of either sign. *)
Definition zero_at (i : nat) (a : ndarray float64) : Prop :=
  exists z, a !! i = Some z /\ is_zero z = true.

(** The [n]-th update of a run, counted from 0, was successful. *)
Fixpoint successful_at (ls : list (ndarray float64))
    (self : BayesianEstimation float64) (n : nat) : bool :=
  match ls, n with
  | [], _ => false
  | l :: _, O => successful l self
  | l :: ls', S n' => successful_at ls' (snd (update l self)) n'
  end.

(** A snapshot with no finite nonzero entry: zeros, infinities and NaN
    only. *)
Definition dead (a : ndarray float64) : Prop :=
  Forall (fun x => degenerate x = true) a.

(** [abs(a.sum() - 1.0) <= 1e-9] *)
Definition sums_to_one (a : ndarray float64) : bool :=
  f64_le (SFabs (f64_sub (ndarray_sum a) (f64_of_Z 1))) (f64_frac 1 (10 ^ 9)).

(** The probability mass accumulated by the loop of [get_quantile] once
    it has read rows [0 .. i]: [acc_probs] starts at 0.0 and each row's
    probability is added in turn. *)
Definition accumulated (probs : ndarray float64) (i : nat) : float64 :=
  fold_left f64_add (take (S i) probs) (S754_zero false).

(** The notebook's two-column frame, row by row. *)
Definition row_of (h p : float64) : gmap string float64 :=
  <["number of rabbits"%string := h]> {["probabilities"%string := p]}.

(** ** Python strings: slices and [int(...)]

    A [string] is read as the sequence of its code points, all below
    256. *)

(** The characters [-], [+] and [_]. *)
Definition char_minus : Ascii.ascii := Ascii.ascii_of_nat 45.
Definition char_plus : Ascii.ascii := Ascii.ascii_of_nat 43.
Definition char_underscore : Ascii.ascii := Ascii.ascii_of_nat 95.

(** [s[a:b]] for constants [0 <= a <= b], and [s[a:]]: a slice is cut to
    what the string has and never raises. *)
Definition str_slice (a b : nat) (s : string) : string := String.substring a (b - a) s.
Definition str_slice_from (a : nat) (s : string) : string :=
  String.substring a (String.length s) s.

(** The code points [int] treats as white space (tab, line feed, vertical
    tab, form feed, carriage return, space, next line, no-break space) and
    as decimal digits. *)
Definition is_space (c : Ascii.ascii) : bool :=
  let n := Ascii.nat_of_ascii c in
  (Nat.leb 9 n && Nat.leb n 13) || Nat.eqb n 32 || Nat.eqb n 133 || Nat.eqb n 160.

Definition is_digit (c : Ascii.ascii) : bool :=
  let n := Ascii.nat_of_ascii c in Nat.leb 48 n && Nat.leb n 57.

Definition digit_val (c : Ascii.ascii) : Z := Z.of_nat (Ascii.nat_of_ascii c - 48).

Fixpoint lstrip (s : string) : string :=
  match s with
  | String c s' => if is_space c then lstrip s' else s
  | EmptyString => EmptyString
  end.

Fixpoint rstrip (s : string) : string :=
  match s with
  | EmptyString => EmptyString
  | String c s' =>
      match rstrip s' with
      | EmptyString => if is_space c then EmptyString else String c EmptyString
      | r => String c r
      end
  end.

(** The digits of a decimal literal after its first digit: single
    underscores may separate digits. *)
Fixpoint digits_loop (s : string) (acc : Z) (after_underscore : bool) : option Z :=
  match s with
  | EmptyString => if after_underscore then None else Some acc
  | String c s' =>
      if is_digit c then digits_loop s' (10 * acc + digit_val c) false
      else if Ascii.eqb c char_underscore then
        if after_underscore then None else digits_loop s' acc true
      else None
  end.

Definition parse_digits (s : string) : option Z :=
  match s with
  | String c s' => if is_digit c then digits_loop s' (digit_val c) false else None
  | EmptyString => None
  end.

(** [int(s)] for a string [s], base 10: surrounding white space is
    dropped, one sign is allowed, and anything but a decimal literal
    raises [ValueError].  (Python from 3.11 on also refuses literals of
    more than 4300 digits; that limit is not modelled.) *)
Definition py_int (s : string) : outcome Z :=
  let body := rstrip (lstrip s) in
  let '(negative, digits) :=
    match body with
    | String c r =>
        if Ascii.eqb c char_minus then (true, r)
        else if Ascii.eqb c char_plus then (false, r)
        else (false, body)
    | EmptyString => (false, body)
    end in
  match parse_digits digits with
  | Some n => Return (if negative then (- n)%Z else n)
  | None => Raise ValueError
  end.

(** [get_year], [get_month], [get_day] *)
Definition get_year (date_string : string) : outcome Z :=
  py_int (str_slice 0 4 date_string).

Definition get_month (date_string : string) : outcome Z :=
  py_int (str_slice 5 7 date_string).

Definition get_day (date_string : string) : outcome Z :=
  py_int (str_slice_from 8 date_string).

(** Dates as the snowfall table writes them, [YYYY-MM-DD] with leading
    zeros: the decimal digit [n] as a character, and the formatted date. *)
Definition digit_char (n : nat) : Ascii.ascii := Ascii.ascii_of_nat (48 + n).

Definition isoformat (year month day : nat) : string :=
  String (digit_char (year / 1000))
    (String (digit_char (year / 100 mod 10))
       (String (digit_char (year / 10 mod 10))
          (String (digit_char (year mod 10))
             (String char_minus
                (String (digit_char (month / 10))
                   (String (digit_char (month mod 10))
                      (String char_minus
                         (String (digit_char (day / 10))
                            (String (digit_char (day mod 10)) EmptyString))))))))).

(** ** The notebook's computation by hand

    The cells that precede the class compute the same two posteriors
    step by step; each cell is a function of the notebook variables it
    reads. *)

Section ByHand.
Context {F : Type} `{!Scalar F}.

(** [day2_unnorm_posts = priors * day2_likelihoods] *)
Definition day2_unnorm_posts (priors day2_likelihoods : ndarray F)
  : outcome (ndarray F) :=
  ndarray_mul priors day2_likelihoods.

(** [day2_posteriors = day2_unnorm_posts / day2_unnorm_posts.sum()] *)
Definition day2_posteriors (day2_unnorm_posts : ndarray F) : ndarray F :=
  ndarray_div day2_unnorm_posts (ndarray_sum day2_unnorm_posts).

(** [day3_priors = day2_posteriors.copy()] *)
Definition day3_priors (day2_posteriors : ndarray F) : ndarray F :=
  day2_posteriors.

(** [day3_unnorm_posts = day3_priors * day3_likelihoods] *)
Definition day3_unnorm_posts (day3_priors day3_likelihoods : ndarray F)
  : outcome (ndarray F) :=
  ndarray_mul day3_priors day3_likelihoods.

(** [day3_posteriors = day3_unnorm_posts / day3_unnorm_posts.sum()] *)
Definition day3_posteriors (day3_unnorm_posts : ndarray F) : ndarray F :=
  ndarray_div day3_unnorm_posts (ndarray_sum day3_unnorm_posts).

(** The cells run top to bottom; the result is
    [(day2_posteriors, day3_posteriors)]. *)
Definition by_hand (priors day2_likelihoods day3_likelihoods : ndarray F)
  : outcome (ndarray F * ndarray F) :=
  match day2_unnorm_posts priors day2_likelihoods with
  | Raise e => Raise e
  | Return u2 =>
      let p2 := day2_posteriors u2 in
      match day3_unnorm_posts (day3_priors p2) day3_likelihoods with
      | Raise e => Raise e
      | Return u3 => Return (p2, day3_posteriors u3)
      end
  end.

End ByHand.

(** ** Shapes and signs *)

(** The length numpy gives the product of arrays of lengths [n] and [m]
    that broadcast together. *)
Definition broadcast_length (n m : nat) : nat := if Nat.eqb m 1 then n else m.

(** Lengths [n] and [m] broadcast together. *)
Definition broadcastable (n m : nat) : bool :=
  Nat.eqb n m || Nat.eqb m 1 || Nat.eqb n 1.

(** Not negative: sign bit clear, or NaN. *)
Definition nonneg_or_nan (x : float64) : bool :=
  match x with
  | S754_zero s | S754_infinity s | S754_finite s _ _ => negb s
  | S754_nan => true
  end.

(** ** Concrete estimators and likelihoods used below *)

(** Two hypotheses 1 and 2 under [randint(1, 3)]: the prior is
    [[0.5, 0.5]]. *)
Definition two_problem : BayesianEstimation float64 :=
  __init__ (arange 1 3) (randint 1 3).


Definition lik_half_quarter : ndarray float64 := [f64_frac 1 2; f64_frac 1 4].
Definition lik_tenths : ndarray float64 := [f64_frac 1 10; f64_frac 1 10].
Definition lik_tenth_quarter : ndarray float64 := [f64_frac 1 10; f64_frac 1 4].
Definition lik_zeros : ndarray float64 := [f64_of_Z 0; f64_of_Z 0].
Definition lik_scalar : ndarray float64 := [f64_frac 1 2].

(** Hypotheses 1, 2, 3 under [randint(2, 4)]: the prior is
    [[0, 0.5, 0.5]]. *)
Definition zero_first_problem : BayesianEstimation float64 :=
  __init__ (arange 1 4) (randint 2 4).

Definition lik_three : ndarray float64 :=
  [f64_frac 1 2; f64_frac 1 2; f64_frac 1 4].

(** The same estimator and likelihoods in exact arithmetic. *)
Definition two_problemQ : BayesianEstimation Qc :=
  __init__ (arange 1 3) (randint 1 3).

Definition lik_tenthsQ : ndarray Qc := [Qc_frac 1 10; Qc_frac 1 10].
Definition lik_tenth_quarterQ : ndarray Qc := [Qc_frac 1 10; Qc_frac 1 4].

(** The likelihoods of the notebook's two updates, [1 / hypotheses] and
    [(hypotheses - 1) / hypotheses]. *)
Definition day2_likelihoods (hypotheses : ndarray float64) : ndarray float64 :=
  map (fun h => f64_div (f64_of_Z 1) h) hypotheses.

Definition day3_likelihoods (hypotheses : ndarray float64) : ndarray float64 :=
  map (fun h => f64_div (f64_sub h (f64_of_Z 1)) h) hypotheses.

(** * Properties *)

(** ** The notebook's instance *)

(** The rabbit problem starts from the prior that is 1/7 on the hypotheses
    4..10 and 0 on 1..3. *)
Example my_rabbit_problem_prior :
  posteriors my_rabbit_problem =
    [repeat (f64_of_Z 0) 3 ++ repeat (f64_frac 1 7) 7].
Proof. vm_compute. reflexivity. Qed.

(** ** Python list operations *)

Lemma list_last_snoc {A} (l : list A) (x : A) : list_last (l ++ [x]) = Return x.
Proof. unfold list_last. now rewrite last_snoc. Qed.

Lemma list_last_nil {A} : list_last (@nil A) = Raise IndexError.
Proof. reflexivity. Qed.

Lemma list_set_last_snoc {A} (l : list A) (x y : A) :
  list_set_last (l ++ [x]) y = Return (l ++ [y]).
Proof.
  unfold list_set_last.
  destruct (l ++ [x]) eqn:E.
  - now destruct l.
  - rewrite <- E. f_equal.
    rewrite length_app. simpl.
    replace (pred (length l + 1)) with (length l + 0) by lia.
    now rewrite insert_app_r.
Qed.

Lemma list_snoc_cases {A} (l : list A) : l = [] \/ exists h x, l = h ++ [x].
Proof.
  induction l as [|a l IH] using rev_ind; [now left | right; eauto].
Qed.

Lemma lookup_map {A B} (f : A -> B) (l : list A) (i : nat) :
  map f l !! i = f <$> (l !! i).
Proof.
  revert i. induction l as [|a l IH]; intros [|i]; simpl; auto.
Qed.

(** ** The shape of [update], for any scalar arithmetic *)

Section EstimatorFacts.
Context {F : Type} `{!Scalar F}.
Implicit Types (self : BayesianEstimation F) (p l u : ndarray F).

Lemma ndarray_mul_same_length p l :
  length p = length l -> ndarray_mul p l = Return (zip_with fmul p l).
Proof.
  destruct p as [|x [|x' p]], l as [|y [|y' l]]; simpl; intros Hlen;
    try discriminate; try reflexivity.
  injection Hlen as Hlen. now rewrite Hlen, Nat.eqb_refl.
Qed.

Lemma ndarray_mul_mismatch p l :
  length l <> length p -> length l <> 1 -> length p <> 1 ->
  ndarray_mul p l = Raise ValueError.
Proof.
  destruct p as [|x [|x' p]], l as [|y [|y' l]]; simpl; intros H0 H1 H2;
    try congruence.
  destruct (Nat.eqb_spec (length p) (length l)) as [E|E]; [|reflexivity].
  now rewrite E in H0.
Qed.

Lemma ndarray_mul_broadcast_r p y :
  ndarray_mul p [y] = Return (map (fun x => fmul x y) p).
Proof. now destruct p as [|x [|x' p]]. Qed.

Lemma ndarray_mul_broadcast_l x l :
  exists u, ndarray_mul [x] l = Return u /\ length u = length l.
Proof.
  destruct l as [|y [|y' l]]; simpl; eexists; (split; [reflexivity|]);
    simpl; now rewrite ?length_map.
Qed.

(** [update] on an object whose history is empty fails at the first
    [self.posteriors[-1]]. *)
Lemma update_empty self l :
  posteriors self = [] -> update l self = (Raise IndexError, self).
Proof.
  intros E. unfold update, bind, posteriors_last. now rewrite E.
Qed.

(** [update] on an object whose history ends in [p]: either the product
    raises and nothing has happened, or the quotient of the product by its
    sum is appended and returned. *)
Lemma update_unfold self h p l :
  posteriors self = h ++ [p] ->
  update l self =
    match ndarray_mul p l with
    | Return u =>
        let post := ndarray_div u (ndarray_sum u) in
        (Return post, set_posteriors (h ++ [p; post]) self)
    | Raise e => (Raise e, self)
    end.
Proof.
  intros E. unfold update, bind, posteriors_last, lift. rewrite E, list_last_snoc.
  destruct (ndarray_mul p l) as [u|e]; [|reflexivity].
  unfold posteriors_append, modify, posteriors_set_last, list_append. simpl.
  rewrite E, !list_last_snoc, list_set_last_snoc. simpl.
  rewrite list_last_snoc. unfold set_posteriors. simpl.
  now rewrite <- app_assoc.
Qed.

(** With a likelihood of the posterior's length, [update] appends and
    returns what the spec calls the normalized product. *)
Lemma update_same_length self h p l :
  posteriors self = h ++ [p] ->
  length l = length p ->
  update l self =
    (Return (normalized p l), set_posteriors (h ++ [p; normalized p l]) self).
Proof.
  intros Hp Hlen. rewrite (update_unfold _ _ _ _ Hp).
  now rewrite ndarray_mul_same_length.
Qed.

(** An exception leaves the object exactly as it was. *)
Lemma update_raise_frame self l e self' :
  update l self = (Raise e, self') -> self' = self.
Proof.
  destruct (list_snoc_cases (posteriors self)) as [E|(h & p & E)].
  - rewrite (update_empty _ _ E). congruence.
  - rewrite (update_unfold _ _ _ _ E).
    destruct (ndarray_mul p l); simpl; congruence.
Qed.

(** A normal return has appended exactly the returned array. *)
Lemma update_return_appends self l post self' :
  update l self = (Return post, self') ->
  self' = set_posteriors (posteriors self ++ [post]) self.
Proof.
  destruct (list_snoc_cases (posteriors self)) as [E|(h & p & E)].
  - rewrite (update_empty _ _ E). congruence.
  - rewrite (update_unfold _ _ _ _ E).
    destruct (ndarray_mul p l); simpl; [|congruence].
    intros [= <- <-]. now rewrite E, <- app_assoc.
Qed.

Lemma updates_return_length ls : forall self ps self',
  updates ls self = (Return ps, self') ->
  length ps = length ls /\
  posteriors self' = posteriors self ++ ps /\
  hypotheses self' = hypotheses self.
Proof.
  induction ls as [|l ls IH]; simpl; intros self ps self'.
  - unfold ret. intros [= <- <-]. now rewrite app_nil_r.
  - unfold bind at 1.
    destruct (update l self) as [[post|e] self1] eqn:E1; [|congruence].
    unfold bind at 1.
    destruct (updates ls self1) as [[ps1|e] self2] eqn:E2; [|congruence].
    unfold ret. intros [= <- <-].
    apply update_return_appends in E1. subst self1.
    destruct (IH _ _ _ E2) as (Hlen & Hps & Hh). simpl in *.
    rewrite Hps, <- app_assoc, Hlen. auto.
Qed.

(** A successful update, in the spec's sense, is one that returns. *)
Lemma successful_with_update (bad : F -> bool) self l :
  successful_with bad l self = true ->
  exists h p u,
    posteriors self = h ++ [p] /\
    ndarray_mul p l = Return u /\
    bad (ndarray_sum u) = false /\
    update l self =
      (Return (ndarray_div u (ndarray_sum u)),
       set_posteriors (h ++ [p; ndarray_div u (ndarray_sum u)]) self).
Proof.
  unfold successful_with, update_total. intros Hs.
  destruct (list_snoc_cases (posteriors self)) as [E|(h & p & E)].
  - rewrite E in Hs. discriminate.
  - rewrite E, list_last_snoc in Hs.
    destruct (ndarray_mul p l) as [u|e] eqn:Hm; [|discriminate].
    exists h, p, u. repeat split; try assumption.
    + now apply negb_true_iff.
    + rewrite (update_unfold _ _ _ _ E), Hm. reflexivity.
Qed.

(** Entry [i] of a product, when the left operand has an entry [i]. *)
Lemma ndarray_mul_lookup p l u i z :
  ndarray_mul p l = Return u -> p !! i = Some z ->
  u = [] \/ exists y, u !! i = Some (fmul z y).
Proof.
  intros Hm Hi. destruct l as [|y [|y' l]].
  - left. destruct p as [|x [|x' p]]; simpl in Hm; congruence.
  - rewrite ndarray_mul_broadcast_r in Hm. injection Hm as <-.
    right. exists y. now rewrite lookup_map, Hi.
  - right. destruct p as [|x [|x' p]].
    + discriminate.
    + destruct i; [|discriminate]. injection Hi as <-.
      simpl in Hm. injection Hm as <-. now exists y.
    + assert (Hlen : length (x :: x' :: p) = length (y :: y' :: l)).
      { simpl in Hm |- *.
        destruct (Nat.eqb_spec (length p) (length l)); [lia|discriminate]. }
      rewrite (ndarray_mul_same_length _ _ Hlen) in Hm. injection Hm as <-.
      destruct (lookup_lt_is_Some_2 (y :: y' :: l) i) as [yi Hyi].
      { apply lookup_lt_Some in Hi. lia. }
      exists yi.
      change (zip_with fmul (x :: x' :: p) (y :: y' :: l) !! i = Some (fmul z yi)).
      now rewrite lookup_zip_with, Hi, Hyi.
Qed.

End EstimatorFacts.

(** ** The pairwise sum *)

Section SumFacts.
Context {F : Type} `{!Scalar F}.
Implicit Types (a : ndarray F) (r s : lanes F).

(** Induction over an array eight elements at a time. *)
Lemma list_ind8 (P : list F -> Prop) :
  (forall a, length a < 8 -> P a) ->
  (forall x0 x1 x2 x3 x4 x5 x6 x7 a,
      P a -> P (x0 :: x1 :: x2 :: x3 :: x4 :: x5 :: x6 :: x7 :: a)) ->
  forall a, P a.
Proof.
  intros Hshort Hstep a.
  assert (Hn : forall n a, length a < n -> P a).
  { clear a. induction n as [|n IH]; intros a Hlen; [lia|].
    destruct a as [|x0 [|x1 [|x2 [|x3 [|x4 [|x5 [|x6 [|x7 a]]]]]]]];
      try (apply Hshort; simpl; lia).
    apply Hstep, IH. simpl in Hlen. lia. }
  apply (Hn (S (length a))). lia.
Qed.

Lemma sum_lanes_short r a : length a < 8 -> sum_lanes r a = (r, a).
Proof.
  intros Hlen.
  destruct a as [|x0 [|x1 [|x2 [|x3 [|x4 [|x5 [|x6 [|x7 a]]]]]]]];
    try reflexivity.
  simpl in Hlen. lia.
Qed.

Lemma pairwise_block_short a :
  length a < 8 -> pairwise_block a = fold_left fadd a fzero.
Proof.
  intros Hlen.
  destruct a as [|x0 [|x1 [|x2 [|x3 [|x4 [|x5 [|x6 [|x7 a]]]]]]]];
    try reflexivity.
  simpl in Hlen. lia.
Qed.




(** A set of scalars that holds 0 and is closed under addition holds the
    sum of any array over it. *)
Section Closed.
Variable P : F -> Prop.
Hypothesis P_zero : P fzero.
Hypothesis P_add : forall x y, P x -> P y -> P (fadd x y).

Lemma fold_add_closed a : forall acc,
  P acc -> Forall P a -> P (fold_left fadd a acc).
Proof.
  induction a as [|x a IH]; simpl; intros acc Hacc Ha; [assumption|].
  inversion Ha; subst. apply IH; auto.
Qed.

Lemma lanes_total_closed r : Forall P (lanes_list r) -> P (lanes_total r).
Proof.
  destruct r as [[[[[[[r0 r1] r2] r3] r4] r5] r6] r7]. simpl. intros H.
  repeat (apply Forall_cons in H as [? H]). auto 10.
Qed.

Lemma lanes_add_closed r s :
  Forall P (lanes_list r) -> Forall P (lanes_list s) ->
  Forall P (lanes_list (lanes_add r s)).
Proof.
  destruct r as [[[[[[[r0 r1] r2] r3] r4] r5] r6] r7].
  destruct s as [[[[[[[x0 x1] x2] x3] x4] x5] x6] x7]. simpl. intros Hr Hx.
  repeat (apply Forall_cons in Hr as [? Hr]).
  repeat (apply Forall_cons in Hx as [? Hx]).
  repeat (constructor; auto).
Qed.

Lemma sum_lanes_closed a : forall r,
  Forall P (lanes_list r) -> Forall P a ->
  Forall P (lanes_list (fst (sum_lanes r a))) /\ Forall P (snd (sum_lanes r a)).
Proof.
  induction a as [a Hlen|x0 x1 x2 x3 x4 x5 x6 x7 a IH] using list_ind8;
    intros r Hr Ha.
  - rewrite sum_lanes_short by assumption. auto.
  - cbn [sum_lanes].
    do 8 (apply Forall_cons in Ha as [? Ha]).
    apply IH; [|assumption].
    apply lanes_add_closed; [assumption|]. simpl. repeat (constructor; auto).
Qed.

Lemma pairwise_block_closed a : Forall P a -> P (pairwise_block a).
Proof.
  intros Ha.
  destruct (Nat.lt_ge_cases (length a) 8) as [Hlen|Hlen].
  - rewrite pairwise_block_short by assumption. now apply fold_add_closed.
  - destruct a as [|x0 [|x1 [|x2 [|x3 [|x4 [|x5 [|x6 [|x7 a]]]]]]]];
      try (simpl in Hlen; lia).
    cbn [pairwise_block].
    do 8 (apply Forall_cons in Ha as [? Ha]).
    destruct (sum_lanes_closed a (x0, x1, x2, x3, x4, x5, x6, x7)) as [Hr Hrest];
      [simpl; repeat (constructor; auto)|assumption|].
    destruct (sum_lanes _ a) as [r rest]. simpl in Hr, Hrest.
    apply fold_add_closed; [|assumption]. now apply lanes_total_closed.
Qed.

Lemma pairwise_sum_from_closed (d : nat) : forall a,
  Forall P a -> P (pairwise_sum_from d a).
Proof.
  induction d as [|d IH]; intros a Ha; cbn [pairwise_sum_from].
  - now apply pairwise_block_closed.
  - destruct (128 <? length a).
    + apply P_add; apply IH; [now apply Forall_take|now apply Forall_drop].
    + now apply pairwise_block_closed.
Qed.

Lemma ndarray_sum_closed a : Forall P a -> P (ndarray_sum a).
Proof.
  intros Ha. unfold ndarray_sum, pairwise_sum.
  apply P_add; [assumption|]. now apply pairwise_sum_from_closed.
Qed.

End Closed.

(** A set of scalars that absorbs under addition holds the sum of any
    array with an element in it. *)
Section Absorbing.
Variable N : F -> Prop.
Hypothesis N_add_l : forall x y, N x -> N (fadd x y).
Hypothesis N_add_r : forall x y, N y -> N (fadd x y).

Lemma fold_add_absorbs a : forall acc,
  N acc \/ Exists N a -> N (fold_left fadd a acc).
Proof.
  induction a as [|x a IH]; simpl; intros acc [Hacc|Ha]; auto.
  - now apply Exists_nil in Ha.
  - apply Exists_cons in Ha as [Hx|Ha]; auto.
Qed.

Lemma lanes_total_absorbs r : Exists N (lanes_list r) -> N (lanes_total r).
Proof.
  destruct r as [[[[[[[r0 r1] r2] r3] r4] r5] r6] r7]. simpl. intros H.
  repeat (apply Exists_cons in H as [?|H]; [auto 10|]).
  now apply Exists_nil in H.
Qed.

Lemma lanes_add_absorbs r s :
  Exists N (lanes_list r) \/ Exists N (lanes_list s) ->
  Exists N (lanes_list (lanes_add r s)).
Proof.
  destruct r as [[[[[[[r0 r1] r2] r3] r4] r5] r6] r7].
  destruct s as [[[[[[[x0 x1] x2] x3] x4] x5] x6] x7]. simpl.
  rewrite !Exists_cons, !Exists_nil. intuition auto.
Qed.

Lemma sum_lanes_absorbs a : forall r,
  Exists N (lanes_list r) \/ Exists N a ->
  Exists N (lanes_list (fst (sum_lanes r a))) \/ Exists N (snd (sum_lanes r a)).
Proof.
  induction a as [a Hlen|x0 x1 x2 x3 x4 x5 x6 x7 a IH] using list_ind8;
    intros r H.
  - now rewrite sum_lanes_short.
  - cbn [sum_lanes]. apply IH.
    destruct H as [H|H].
    + left. apply lanes_add_absorbs. now left.
    + change (x0 :: x1 :: x2 :: x3 :: x4 :: x5 :: x6 :: x7 :: a)
        with (lanes_list (x0, x1, x2, x3, x4, x5, x6, x7) ++ a) in H.
      apply Exists_app in H as [H|H]; [left|now right].
      apply lanes_add_absorbs. now right.
Qed.

Lemma pairwise_block_absorbs a : Exists N a -> N (pairwise_block a).
Proof.
  intros Ha.
  destruct (Nat.lt_ge_cases (length a) 8) as [Hlen|Hlen].
  - rewrite pairwise_block_short by assumption. apply fold_add_absorbs. now right.
  - destruct a as [|x0 [|x1 [|x2 [|x3 [|x4 [|x5 [|x6 [|x7 a]]]]]]]];
      try (simpl in Hlen; lia).
    cbn [pairwise_block].
    change (x0 :: x1 :: x2 :: x3 :: x4 :: x5 :: x6 :: x7 :: a)
      with (lanes_list (x0, x1, x2, x3, x4, x5, x6, x7) ++ a) in Ha.
    apply Exists_app in Ha.
    pose proof (sum_lanes_absorbs a (x0, x1, x2, x3, x4, x5, x6, x7) Ha) as H.
    destruct (sum_lanes _ a) as [r rest]. simpl in H.
    apply fold_add_absorbs. destruct H as [H|H]; [left|now right].
    now apply lanes_total_absorbs.
Qed.

Lemma pairwise_sum_from_absorbs (d : nat) : forall a,
  Exists N a -> N (pairwise_sum_from d a).
Proof.
  induction d as [|d IH]; intros a Ha; cbn [pairwise_sum_from].
  - now apply pairwise_block_absorbs.
  - destruct (128 <? length a).
    + rewrite <- (take_drop (length a / 2 - (length a / 2) mod 8) a) in Ha.
      apply Exists_app in Ha as [Ha|Ha]; [apply N_add_l|apply N_add_r];
        now apply IH.
    + now apply pairwise_block_absorbs.
Qed.

Lemma ndarray_sum_absorbs a : Exists N a -> N (ndarray_sum a).
Proof.
  intros Ha. unfold ndarray_sum, pairwise_sum.
  now apply N_add_r, pairwise_sum_from_absorbs.
Qed.

End Absorbing.

End SumFacts.

(** ** History growth and the frame of [update] *)

(** C7: a constructed estimator starts with the history [[prior]]; each
    update that returns appends exactly one entry; so after [k] updates that
    all return, the history has [k + 1] entries. *)
Theorem history_length_after_updates {F : Type} `{!Scalar F}
    (H : ndarray F) (d : rv_discrete F) (ls ps : list (ndarray F))
    (self' : BayesianEstimation F) :
  updates ls (__init__ H d) = (Return ps, self') ->
  posteriors (__init__ H d) = [pmf d H] /\
  length (posteriors self') = length ls + 1 /\
  (forall self l post self1,
      update l self = (Return post, self1) ->
      length (posteriors self1) = length (posteriors self) + 1).
Proof.
  intros Hrun. split; [reflexivity|]. split.
  - destruct (updates_return_length _ _ _ _ Hrun) as (Hlen & Hps & _).
    rewrite Hps, length_app, Hlen. simpl. lia.
  - intros self l post self1 Hup.
    apply update_return_appends in Hup. subst self1. simpl.
    now rewrite length_app.
Qed.

(** C8: whatever [update] does, the hypothesis set, the prior and every
    snapshot stored before the call are unchanged afterwards; the history
    is the old one, or the old one with one entry appended. *)
Theorem update_keeps_past_snapshots {F : Type} `{!Scalar F}
    (self : BayesianEstimation F) (l : ndarray F) :
  let self' := snd (update l self) in
  hypotheses self' = hypotheses self /\
  priors self' = priors self /\
  take (length (posteriors self)) (posteriors self') = posteriors self /\
  (posteriors self' = posteriors self \/
   exists post, fst (update l self) = Return post /\
                posteriors self' = posteriors self ++ [post]).
Proof.
  destruct (update l self) as [[post|e] self1] eqn:E; simpl.
  - apply update_return_appends in E. subst self1. simpl.
    rewrite take_app_length. repeat split. right. now exists post.
  - apply update_raise_frame in E. subst self1.
    rewrite firstn_all. repeat split. now left.
Qed.

(** C6, as the code has it: [update] checks no lengths itself.  When the
    likelihood's length differs from the current posterior's, the
    elementwise product raises numpy's broadcasting [ValueError] before
    anything is appended and the object is exactly as before, unless one
    of the two lengths is 1: then the single element is broadcast and the
    update goes through. *)
Theorem update_length_mismatch {F : Type} `{!Scalar F}
    (self : BayesianEstimation F) (h : list (ndarray F)) (P L : ndarray F) :
  posteriors self = h ++ [P] ->
  length L <> length P ->
  (length L <> 1 -> length P <> 1 -> update L self = (Raise ValueError, self)) /\
  (length L = 1 ->
   exists post, update L self = (Return post, set_posteriors (h ++ [P; post]) self)
                /\ length post = length P) /\
  (length P = 1 ->
   exists post, update L self = (Return post, set_posteriors (h ++ [P; post]) self)
                /\ length post = length L) /\
  (forall e self', update L self = (Raise e, self') -> self' = self).
Proof.
  intros Hp Hne. split; [|split; [|split]].
  - intros H1 H2. rewrite (update_unfold _ _ _ _ Hp).
    now rewrite ndarray_mul_mismatch.
  - intros H1. destruct L as [|y [|y' L]]; try discriminate.
    rewrite (update_unfold _ _ _ _ Hp), ndarray_mul_broadcast_r. simpl.
    eexists. split; [reflexivity|].
    unfold ndarray_div. now rewrite !length_map.
  - intros H1. destruct P as [|x [|x' P]]; try discriminate.
    rewrite (update_unfold _ _ _ _ Hp).
    destruct (ndarray_mul_broadcast_l x L) as (u & -> & Hu). simpl.
    eexists. split; [reflexivity|].
    unfold ndarray_div. now rewrite length_map.
  - intros e self'. apply update_raise_frame.
Qed.

(** ** One update, in binary64 *)




(** From 8 elements on the order of the additions shows: ten times 0.1
    sum to 1.0 exactly in numpy's order, and to 0.9999999999999999 from
    left to right. *)
Example sum_of_ten_tenths :
  ndarray_sum (repeat (f64_frac 1 10) 10) = f64_of_Z 1 /\
  fold_left f64_add (repeat (f64_frac 1 10) 10) (S754_zero false) =
    S754_finite false 9007199254740991 (-53).
Proof. split; vm_compute; reflexivity. Qed.

(** The notebook's run: ten hypotheses, updated with [1 / hypotheses] and
    then [(hypotheses - 1) / hypotheses].  The posteriors returned are
    [[0, 0, 0, 0.22817819630568636, ..., 0.09127127852227454]] and
    [[0, 0, 0, 0.20673041447651128, ..., 0.09923059894872541]]. *)
Example my_rabbit_problem_run :
  fst (updates [day2_likelihoods (arange 1 11); day3_likelihoods (arange 1 11)]
         my_rabbit_problem) =
    Return
      [[S754_zero false; S754_zero false; S754_zero false;
        S754_finite false 8220985918850888 (-55);
        S754_finite false 6576788735080710 (-55);
        S754_finite false 5480657279233925 (-55);
        S754_finite false 4697706239343364 (-55);
        S754_finite false 8220985918850888 (-56);
        S754_finite false 7307543038978567 (-56);
        S754_finite false 6576788735080710 (-56)];
       [S754_zero false; S754_zero false; S754_zero false;
        S754_finite false 7448248140820515 (-55);
        S754_finite false 6355838413500172 (-55);
        S754_finite false 5517220845052233 (-55);
        S754_finite false 4864162051148090 (-55);
        S754_finite false 8689622830957267 (-56);
        S754_finite false 7846714090740954 (-56);
        S754_finite false 7150318215187694 (-56)]].
Proof. vm_compute. reflexivity. Qed.

Lemma history_length_after_updates_witness :
  posteriors two_problem = [pmf (randint 1 3) (arange 1 3)] /\
  length (posteriors (snd (updates [lik_half_quarter; lik_tenths] two_problem)))
    = 2 + 1 /\
  (forall (self : BayesianEstimation float64) l post self1,
      update l self = (Return post, self1) ->
      length (posteriors self1) = length (posteriors self) + 1).
Proof.
  apply (history_length_after_updates (arange 1 3) (randint 1 3)
           [lik_half_quarter; lik_tenths]
           (match fst (updates [lik_half_quarter; lik_tenths] two_problem) with
            | Return ps => ps
            | Raise _ => []
            end)).
  rewrite (surjective_pairing (updates _ (__init__ _ _))).
  f_equal; vm_compute; reflexivity.
Defined.

(** C6, counterexample: a likelihood of length 1 against two hypotheses is
    accepted; [update] returns and the history has grown. *)
Lemma update_length_mismatch_counterexample :
  length lik_scalar <> length (hypotheses two_problem) /\
  fst (update lik_scalar two_problem) = Return [f64_frac 1 2; f64_frac 1 2] /\
  length (posteriors (snd (update lik_scalar two_problem))) = 2 /\
  length (posteriors two_problem) = 1.
Proof.
  split; [vm_compute; discriminate|].
  split; [vm_compute; reflexivity|].
  split; vm_compute; reflexivity.
Qed.

Lemma update_length_mismatch_witness :
  update (arange 1 4) two_problem = (Raise ValueError, two_problem).
Proof.
  destruct (update_length_mismatch two_problem [] [f64_frac 1 2; f64_frac 1 2]
              (arange 1 4)) as [Hraise _].
  - vm_compute. reflexivity.
  - vm_compute. lia.
  - apply Hraise; vm_compute; lia.
Defined.

(** ** Degenerate totals in binary64 *)

Lemma f64_mul_finite_zero x z :
  is_finite x = true -> is_zero z = true -> is_zero (f64_mul x z) = true.
Proof. destruct x, z; simpl; intros; try discriminate; reflexivity. Qed.

Lemma f64_add_zero_zero a b :
  is_zero a = true -> is_zero b = true -> is_zero (f64_add a b) = true.
Proof.
  destruct a as [[]| | |], b as [[]| | |]; simpl; intros; try discriminate;
    reflexivity.
Qed.

Lemma f64_div_zero_zero a b :
  is_zero a = true -> is_zero b = true -> f64_div a b = np_nan.
Proof. destruct a, b; simpl; intros; try discriminate; reflexivity. Qed.

Lemma f64_div_nan_r a : f64_div a np_nan = np_nan.
Proof. now destruct a. Qed.

Lemma f64_add_nan_r a : f64_add a np_nan = np_nan.
Proof. now destruct a. Qed.

(** The sum of an array of zeros is a zero. *)
Lemma ndarray_sum_zeros (l : list float64) :
  Forall (fun x => is_zero x = true) l -> is_zero (ndarray_sum l) = true.
Proof.
  apply (ndarray_sum_closed (fun x => is_zero x = true)); [reflexivity|].
  apply f64_add_zero_zero.
Qed.

Lemma fold_add_nan (l : list float64) : fold_left f64_add l np_nan = np_nan.
Proof. induction l as [|x l IH]; simpl; auto. Qed.

(** A NaN anywhere among the terms makes a running sum NaN. *)
Lemma fold_add_nan_elem (l : list float64) : forall acc,
  np_nan ∈ l -> fold_left f64_add l acc = np_nan.
Proof.
  induction l as [|x l IH]; simpl; intros acc Hin.
  - now apply elem_of_nil in Hin.
  - apply elem_of_cons in Hin as [<-|Hin].
    + rewrite f64_add_nan_r. apply fold_add_nan.
    + now apply IH.
Qed.

(** A NaN anywhere in an array makes its sum NaN. *)
Lemma ndarray_sum_nan (l : list float64) :
  np_nan ∈ l -> ndarray_sum l = np_nan.
Proof.
  intros Hin.
  apply (ndarray_sum_absorbs (fun x => x = np_nan)).
  - now intros x y ->.
  - intros x y ->. apply f64_add_nan_r.
  - apply Exists_exists. now exists np_nan.
Qed.

Lemma zip_mul_finite_zero (P L : list float64) :
  Forall (fun p => is_finite p = true) P ->
  Forall (fun l => is_zero l = true) L ->
  Forall (fun u => is_zero u = true) (zip_with f64_mul P L).
Proof.
  intros HP. revert L. induction HP as [|p P Hp HP IH]; intros L HL; simpl.
  - constructor.
  - destruct HL as [|l L Hl HL]; constructor.
    + now apply f64_mul_finite_zero.
    + now apply IH.
Qed.

(** C2, counterexample: an all-zeros likelihood against the prior
    [[0.5, 0.5]].  The total is 0; [update] raises nothing, returns
    [[nan, nan]] and has stored it: the history went from 1 entry to 2. *)
Lemma degenerate_update_counterexample :
  posteriors two_problem = [[f64_frac 1 2; f64_frac 1 2]] /\
  total [f64_frac 1 2; f64_frac 1 2] lik_zeros = S754_zero false /\
  fst (update lik_zeros two_problem) = Return [np_nan; np_nan] /\
  posteriors (snd (update lik_zeros two_problem)) =
    [[f64_frac 1 2; f64_frac 1 2]; [np_nan; np_nan]].
Proof. repeat split; vm_compute; reflexivity. Qed.

(** C2, as the code has it: a degenerate total is not an error.  [update]
    returns normally, having appended the quotient by that total, so the
    history is one entry longer; when the total is NaN, and when the
    likelihood is all zeros against a finite posterior, every entry of the
    appended array is NaN. *)
Theorem degenerate_update_appends_nan
    (self : BayesianEstimation float64) (h : list (ndarray float64))
    (P L : ndarray float64) :
  posteriors self = h ++ [P] ->
  length L = length P ->
  degenerate (total P L) = true ->
  update L self =
    (Return (normalized P L), set_posteriors (h ++ [P; normalized P L]) self) /\
  length (posteriors (snd (update L self))) = length (posteriors self) + 1 /\
  (is_nan (total P L) = true ->
   Forall (fun x => is_nan x = true) (normalized P L)) /\
  (Forall (fun l => is_zero l = true) L ->
   Forall (fun p => is_finite p = true) P ->
   Forall (fun x => is_nan x = true) (normalized P L)).
Proof.
  intros Hp Hlen _.
  pose proof (update_same_length self h P L Hp Hlen) as Hup.
  split; [assumption|]. split; [|split].
  - rewrite Hup, Hp. simpl. rewrite !length_app. simpl. lia.
  - intros Hnan. unfold normalized, ndarray_div.
    apply Forall_map, Forall_forall. intros u _.
    destruct (total P L); try discriminate. now rewrite f64_div_nan_r.
  - intros HL HP. unfold normalized, ndarray_div.
    pose proof (zip_mul_finite_zero P L HP HL) as Hz.
    apply Forall_map. unfold total, unnormalized.
    eapply Forall_impl; [exact Hz|]. intros u Hu. cbv beta.
    change fdiv with f64_div.
    rewrite f64_div_zero_zero; auto.
    now apply ndarray_sum_zeros.
Qed.

Lemma degenerate_update_appends_nan_witness :
  update lik_zeros two_problem =
    (Return (normalized [f64_frac 1 2; f64_frac 1 2] lik_zeros),
     set_posteriors
       ([] ++ [[f64_frac 1 2; f64_frac 1 2];
               normalized [f64_frac 1 2; f64_frac 1 2] lik_zeros]) two_problem) /\
  length (posteriors (snd (update lik_zeros two_problem))) =
    length (posteriors two_problem) + 1 /\
  (is_nan (total [f64_frac 1 2; f64_frac 1 2] lik_zeros) = true ->
   Forall (fun x => is_nan x = true)
     (normalized [f64_frac 1 2; f64_frac 1 2] lik_zeros)) /\
  (Forall (fun l => is_zero l = true) lik_zeros ->
   Forall (fun p => is_finite p = true) [f64_frac 1 2; f64_frac 1 2] ->
   Forall (fun x => is_nan x = true)
     (normalized [f64_frac 1 2; f64_frac 1 2] lik_zeros)).
Proof.
  apply (degenerate_update_appends_nan two_problem []
           [f64_frac 1 2; f64_frac 1 2] lik_zeros).
  - vm_compute. reflexivity.
  - reflexivity.
  - vm_compute. reflexivity.
Defined.

(** ** Normalization *)


(** In binary64, on a concrete run: both snapshots appended from the prior
    [[0.5, 0.5]] by [[0.1, 0.1]] and then [[0.1, 0.25]] sum to 1 within
    1e-9. *)
Example two_problem_run_sums_to_one :
  forallb sums_to_one
    (tail (posteriors
             (snd (updates [lik_tenths; lik_tenth_quarter] two_problem)))) = true /\
  length (posteriors
            (snd (updates [lik_tenths; lik_tenth_quarter] two_problem))) = 3.
Proof. split; vm_compute; reflexivity. Qed.

Local Open Scope Qc_scope.

Lemma Qc_is_zero_false (t : Qc) : Qc_is_zero t = false -> t <> 0.
Proof. unfold Qc_is_zero. intros H. now apply bool_decide_eq_false in H. Qed.

Lemma Qc_fold_div (u : list Qc) (t : Qc) : forall a,
  fold_left Qcplus (map (fun x => x / t) u) (a / t) = fold_left Qcplus u a / t.
Proof.
  induction u as [|x u IH]; simpl; intros a; [reflexivity|].
  rewrite <- IH. f_equal. unfold Qcdiv. ring.
Qed.

(** In exact arithmetic the order of the additions does not matter:
    numpy's sum is the sum from left to right. *)
Lemma Qc_fold_acc (u : list Qc) : forall a,
  fold_left Qcplus u a = a + fold_left Qcplus u 0.
Proof.
  induction u as [|x u IH]; simpl; intros a; [ring|].
  rewrite (IH (a + x)), (IH (0 + x)). ring.
Qed.

Lemma Qc_fold_app (u v : list Qc) :
  fold_left Qcplus (u ++ v) 0 = fold_left Qcplus u 0 + fold_left Qcplus v 0.
Proof. rewrite fold_left_app. apply Qc_fold_acc. Qed.

Lemma Qc_sum_lanes (a : list Qc) : forall r : lanes Qc,
  lanes_total (fst (sum_lanes r a)) + fold_left Qcplus (snd (sum_lanes r a)) 0 =
  lanes_total r + fold_left Qcplus a 0.
Proof.
  induction a as [a Hlen|x0 x1 x2 x3 x4 x5 x6 x7 a IH] using list_ind8;
    intros r.
  - now rewrite sum_lanes_short.
  - cbn [sum_lanes]. rewrite IH.
    destruct r as [[[[[[[r0 r1] r2] r3] r4] r5] r6] r7].
    cbn [lanes_add lanes_total fold_left fadd Qc_Scalar].
    rewrite (Qc_fold_acc a (_ + _)). ring.
Qed.

Lemma Qc_pairwise_block (a : list Qc) : pairwise_block a = fold_left Qcplus a 0.
Proof.
  destruct (Nat.lt_ge_cases (length a) 8) as [Hlen|Hlen].
  - exact (pairwise_block_short a Hlen).
  - destruct a as [|x0 [|x1 [|x2 [|x3 [|x4 [|x5 [|x6 [|x7 a]]]]]]]];
      try (simpl in Hlen; lia).
    cbn [pairwise_block].
    pose proof (Qc_sum_lanes a (x0, x1, x2, x3, x4, x5, x6, x7)) as H.
    destruct (sum_lanes _ a) as [r rest]. cbn [fst snd] in H.
    change fadd with Qcplus.
    rewrite Qc_fold_acc, H.
    cbn [lanes_total fold_left fadd Qc_Scalar].
    rewrite (Qc_fold_acc a (_ + _)). ring.
Qed.

Lemma Qc_pairwise_sum_from (d : nat) : forall a : list Qc,
  pairwise_sum_from d a = fold_left Qcplus a 0.
Proof.
  induction d as [|d IH]; intros a; cbn [pairwise_sum_from].
  - apply Qc_pairwise_block.
  - destruct (128 <? length a); [|apply Qc_pairwise_block].
    cbv zeta. rewrite !IH. change fadd with Qcplus.
    rewrite <- Qc_fold_app. now rewrite take_drop.
Qed.

Lemma Qc_ndarray_sum (a : list Qc) : ndarray_sum a = fold_left Qcplus a 0.
Proof.
  unfold ndarray_sum, pairwise_sum. rewrite Qc_pairwise_sum_from.
  change (0 + fold_left Qcplus a 0 = fold_left Qcplus a 0). ring.
Qed.


Lemma successfulQ_update (self : BayesianEstimation Qc) (l : list Qc) :
  successfulQ l self = true ->
  exists h p u,
    posteriors self = h ++ [p] /\
    ndarray_mul p l = Return u /\
    ndarray_sum u <> 0 /\
    update l self =
      (Return (ndarray_div u (ndarray_sum u)),
       set_posteriors (h ++ [p; ndarray_div u (ndarray_sum u)]) self).
Proof.
  intros Hs.
  destruct (successful_with_update _ _ _ Hs) as (h & p & u & Hp & Hm & Hb & Hup).
  exists h, p, u. repeat split; try assumption.
  now apply Qc_is_zero_false.
Qed.




Local Close Scope Qc_scope.

(** ** Order of the evidence *)


Section TwoUpdates.
Context {F : Type} `{!Scalar F}.

Lemma normalized_length (p l : ndarray F) :
  length l = length p -> length (normalized p l) = length p.
Proof.
  intros Hlen. unfold normalized, ndarray_div, unnormalized.
  rewrite length_map, length_zip_with. lia.
Qed.

(** Two updates in a row with likelihoods of the posterior's length. *)
Lemma updates_two (self : BayesianEstimation F) h (P L1 L2 : ndarray F) :
  posteriors self = h ++ [P] ->
  length L1 = length P -> length L2 = length P ->
  let a1 := normalized P L1 in
  let a2 := normalized a1 L2 in
  updates [L1; L2] self =
    (Return [a1; a2], set_posteriors (h ++ [P; a1; a2]) self).
Proof.
  intros Hp H1 H2 a1 a2. simpl. unfold bind at 1.
  rewrite (update_same_length self h P L1 Hp H1). fold a1.
  unfold bind at 1. unfold bind at 1.
  rewrite (update_same_length _ (h ++ [P]) a1 L2).
  - fold a2. unfold ret, bind. unfold set_posteriors. simpl.
    now rewrite <- !app_assoc.
  - simpl. now rewrite <- app_assoc.
  - unfold a1. rewrite normalized_length; congruence.
Qed.

Lemma successful_with_total (bad : F -> bool) (self : BayesianEstimation F)
    h (P L : ndarray F) :
  posteriors self = h ++ [P] -> length L = length P ->
  successful_with bad L self = negb (bad (total P L)).
Proof.
  intros Hp Hlen. unfold successful_with, update_total.
  rewrite Hp, list_last_snoc, ndarray_mul_same_length by congruence.
  reflexivity.
Qed.

Lemma all_successful_two (bad : F -> bool) (self : BayesianEstimation F)
    h (P L1 L2 : ndarray F) :
  posteriors self = h ++ [P] ->
  length L1 = length P -> length L2 = length P ->
  all_successful_with bad [L1; L2] self = true ->
  bad (total P L1) = false /\ bad (total (normalized P L1) L2) = false.
Proof.
  intros Hp H1 H2. simpl.
  rewrite (successful_with_total bad self h P L1 Hp H1).
  rewrite (update_same_length self h P L1 Hp H1). simpl.
  rewrite (successful_with_total bad _ (h ++ [P]) (normalized P L1) L2).
  - rewrite andb_true_r, andb_true_iff, !negb_true_iff. tauto.
  - simpl. now rewrite <- app_assoc.
  - rewrite normalized_length; congruence.
Qed.

End TwoUpdates.

Local Open Scope Qc_scope.

Lemma Qc_zip_mul_div (u l : list Qc) (t : Qc) :
  zip_with Qcmult (map (fun x => x / t) u) l =
  map (fun x => x / t) (zip_with Qcmult u l).
Proof.
  revert l. induction u as [|x u IH]; intros [|y l]; simpl; try reflexivity.
  rewrite IH. f_equal. unfold Qcdiv. ring.
Qed.


(** In exact arithmetic two successive normalizations are one: the
    elementwise triple product divided by its sum. *)
Lemma Qc_normalized_twice (P L1 L2 : list Qc) :
  total P L1 <> 0 -> total (normalized P L1) L2 <> 0 ->
  normalized (normalized P L1) L2 =
    ndarray_div (zip_with Qcmult (zip_with Qcmult P L1) L2)
                (ndarray_sum (zip_with Qcmult (zip_with Qcmult P L1) L2)).
Proof.
  unfold normalized, total, unnormalized, ndarray_div.
  unfold normalized, total, unnormalized, ndarray_div. simpl.
  set (t1 := ndarray_sum (zip_with Qcmult P L1)).
  rewrite Qc_zip_mul_div.
  set (w := zip_with Qcmult (zip_with Qcmult P L1) L2).
  assert (Hs : ndarray_sum (map (fun x => x / t1) w) = ndarray_sum w / t1).
  { rewrite !Qc_ndarray_sum.
    replace (0 : Qc) with (0 / t1) at 1 by (unfold Qcdiv; ring).
    apply Qc_fold_div. }
  rewrite Hs. intros Ht1 Ht2. rewrite map_map. apply map_ext. intros x.
  assert (HS : ndarray_sum w <> 0).
  { intros E. apply Ht2. rewrite E. unfold Qcdiv. ring. }
  field. auto.
Qed.



Local Close Scope Qc_scope.

(** ** Zeros are absorbing *)

Lemma f64_mul_zero_l z y :
  is_zero z = true -> is_zero (f64_mul z y) = true \/ f64_mul z y = np_nan.
Proof. destruct z, y; simpl; intros; try discriminate; auto. Qed.

Lemma f64_div_zero_finite z t :
  is_zero z = true -> degenerate t = false -> is_zero (f64_div z t) = true.
Proof. destruct z, t; simpl; intros; try discriminate; reflexivity. Qed.

(** One successful update keeps a zero entry zero. *)
Lemma zero_absorbed_step (self : BayesianEstimation float64) (l : list float64)
    (i : nat) :
  successful l self = true ->
  exists h p post,
    posteriors self = h ++ [p] /\
    update l self = (Return post, set_posteriors (h ++ [p; post]) self) /\
    (zero_at i p -> zero_at i post).
Proof.
  intros Hs.
  destruct (successful_with_update _ _ _ Hs) as (h & p & u & Hp & Hm & Hb & Hup).
  exists h, p, (ndarray_div u (ndarray_sum u)).
  split; [assumption|]. split; [assumption|].
  intros (z & Hz & Hzero).
  destruct (ndarray_mul_lookup _ _ _ _ _ Hm Hz) as [->|(y & Hy)];
    [discriminate Hb|].
  destruct (f64_mul_zero_l z y Hzero) as [Hprod|Hprod].
  - exists (f64_div (f64_mul z y) (ndarray_sum u)). split.
    + unfold ndarray_div. now rewrite lookup_map, Hy.
    + now apply f64_div_zero_finite.
  - exfalso. simpl in Hy. rewrite Hprod in Hy.
    apply list_elem_of_lookup_2 in Hy.
    rewrite (ndarray_sum_nan u Hy) in Hb. discriminate Hb.
Qed.

(** Degenerate values only breed degenerate values: once an update has
    divided by a degenerate total, the snapshot it stored is dead, and no
    later update can be successful. *)

Lemma f64_mul_degenerate x y :
  degenerate x = true -> degenerate (f64_mul x y) = true.
Proof. destruct x, y; simpl; intros; try discriminate; reflexivity. Qed.

Lemma f64_add_degenerate a b :
  degenerate a = true -> degenerate b = true -> degenerate (f64_add a b) = true.
Proof.
  destruct a as [[]|[]| |], b as [[]|[]| |]; simpl; intros; try discriminate;
    reflexivity.
Qed.

Lemma f64_div_degenerate_r x t :
  degenerate t = true -> degenerate (f64_div x t) = true.
Proof. destruct x, t; simpl; intros; try discriminate; reflexivity. Qed.

Lemma ndarray_sum_degenerate (l : list float64) :
  dead l -> degenerate (ndarray_sum l) = true.
Proof.
  apply (ndarray_sum_closed (fun x => degenerate x = true)); [reflexivity|].
  apply f64_add_degenerate.
Qed.

Lemma zip_mul_dead (p l : list float64) :
  dead p -> dead (zip_with f64_mul p l).
Proof.
  intros Hp. revert l. induction Hp as [|x p Hx Hp IH]; intros [|y l]; simpl;
    try constructor.
  - now apply f64_mul_degenerate.
  - apply IH.
Qed.

Lemma ndarray_mul_dead (p l u : list float64) :
  ndarray_mul p l = Return u -> dead p -> dead u.
Proof.
  intros Hm Hp. destruct l as [|y [|y' l]].
  - destruct p as [|x [|x' p]]; simpl in Hm; try discriminate;
      injection Hm as <-; constructor.
  - rewrite ndarray_mul_broadcast_r in Hm. injection Hm as <-.
    apply Forall_map. eapply Forall_impl; [exact Hp|].
    intros x Hx. now apply f64_mul_degenerate.
  - destruct p as [|x [|x' p]].
    + discriminate.
    + simpl in Hm. injection Hm as <-. inversion Hp; subst.
      change (dead (map (fun y0 => f64_mul x y0) (y :: y' :: l))).
      apply Forall_map, Forall_forall. intros y0 _.
      now apply f64_mul_degenerate.
    + assert (Hlen : length (x :: x' :: p) = length (y :: y' :: l)).
      { simpl in Hm |- *.
        destruct (Nat.eqb_spec (length p) (length l)); [lia|discriminate]. }
      rewrite (ndarray_mul_same_length _ _ Hlen) in Hm. injection Hm as <-.
      now apply (zip_mul_dead (x :: x' :: p) (y :: y' :: l)).
Qed.

Lemma dead_not_successful (self : BayesianEstimation float64) h p l :
  posteriors self = h ++ [p] -> dead p -> successful l self = false.
Proof.
  intros Hp Hdead. unfold successful, successful_with, update_total.
  rewrite Hp, list_last_snoc.
  destruct (ndarray_mul p l) as [u|e] eqn:Hm; [|reflexivity].
  apply negb_false_iff. apply ndarray_sum_degenerate.
  now apply (ndarray_mul_dead p l).
Qed.

Lemma unsuccessful_update_dead (self : BayesianEstimation float64) l post self' :
  update l self = (Return post, self') -> successful l self = false -> dead post.
Proof.
  unfold successful, successful_with, update_total.
  destruct (list_snoc_cases (posteriors self)) as [E|(h & p & E)].
  - rewrite (update_empty _ _ E). discriminate.
  - rewrite (update_unfold _ _ _ _ E), E, list_last_snoc.
    destruct (ndarray_mul p l) as [u|e]; [|discriminate]. simpl.
    intros [= <- _] Hbad. apply negb_false_iff in Hbad.
    apply Forall_map, Forall_forall. intros x _.
    now apply f64_div_degenerate_r.
Qed.

Lemma dead_never_successful (ls : list (ndarray float64)) :
  forall (self : BayesianEstimation float64) h p n,
  posteriors self = h ++ [p] -> dead p -> successful_at ls self n = false.
Proof.
  induction ls as [|l ls IH]; intros self h p [|n] Hp Hdead; simpl;
    try reflexivity.
  - now apply (dead_not_successful self h p).
  - destruct (update l self) as [[post|e] self1] eqn:E; simpl.
    + pose proof (unsuccessful_update_dead _ _ _ _ E
                    (dead_not_successful self h p l Hp Hdead)) as Hpost.
      apply update_return_appends in E. subst self1.
      apply (IH _ (h ++ [p]) post); [|assumption].
      simpl. now rewrite Hp.
    + apply update_raise_frame in E. subst self1. now apply (IH _ h p).
Qed.

Lemma all_successful_at (ls : list (ndarray float64)) :
  forall (self : BayesianEstimation float64) n,
  all_successful ls self = true -> n < length ls ->
  successful_at ls self n = true.
Proof.
  induction ls as [|l ls IH]; simpl; intros self n Hok Hn; [lia|].
  apply andb_true_iff in Hok as [Hs Hrest].
  destruct n as [|n]; [assumption|]. apply IH; [assumption|lia].
Qed.

Lemma updates_cons_state (l : ndarray float64) (ls : list (ndarray float64))
    (self : BayesianEstimation float64) :
  snd (updates (l :: ls) self) =
    match update l self with
    | (Return _, self1) => snd (updates ls self1)
    | (Raise _, self1) => self1
    end.
Proof.
  simpl. unfold bind at 1.
  destruct (update l self) as [[post|e] self1]; [|reflexivity].
  unfold bind. now destruct (updates ls self1) as [[ps|e] self2].
Qed.

(** Through any run of updates: the history only grows, and a zero at
    entry [i] of a snapshot is a zero at entry [i] of every later snapshot
    that a successful update appended. *)
Lemma zero_absorbed_run (i : nat) (ls : list (ndarray float64)) :
  forall (self : BayesianEstimation float64) h p,
  posteriors self = h ++ [p] ->
  exists ps,
    posteriors (snd (updates ls self)) = h ++ p :: ps /\
    forall j k a b, j < k ->
      successful_at ls self (k - 1) = true ->
      (p :: ps) !! j = Some a -> (p :: ps) !! k = Some b ->
      zero_at i a -> zero_at i b.
Proof.
  induction ls as [|l ls IH]; intros self h p Hp.
  - exists []. split; [exact Hp|]. intros j k a b _ Hs. discriminate Hs.
  - rewrite updates_cons_state.
    destruct (update l self) as [[post|e] self1] eqn:E.
    + pose proof E as Happ. apply update_return_appends in Happ. subst self1.
      destruct (IH (set_posteriors (posteriors self ++ [post]) self)
                  (h ++ [p]) post) as (ps & Hrun & Hch).
      { simpl. now rewrite Hp. }
      exists (post :: ps). split.
      { rewrite Hrun. now rewrite <- app_assoc. }
      intros j [|k] a b Hjk Hs Ha Hb Hzero; [lia|].
      simpl in Hs. rewrite Nat.sub_0_r, E in Hs. simpl in Hs.
      assert (Hl : successful l self = true).
      { destruct (successful l self) eqn:Hl; [reflexivity|].
        pose proof (unsuccessful_update_dead _ _ _ _ E Hl) as Hdead.
        destruct k as [|k]; [exact Hs|].
        rewrite (dead_never_successful ls _ (h ++ [p]) post k) in Hs;
          [discriminate|simpl; now rewrite Hp|assumption]. }
      destruct (zero_absorbed_step self l i Hl)
        as (h' & p' & post' & Hp' & Hup & Hstep).
      rewrite Hp in Hp'. apply app_inj_tail in Hp' as [<- <-].
      rewrite E in Hup. injection Hup as <-.
      destruct j as [|j]; simpl in Ha, Hb.
      * injection Ha as <-. specialize (Hstep Hzero).
        destruct k as [|k]; [simpl in Hb; congruence|].
        apply (Hch 0 (S k) post b); auto with lia.
        simpl. now rewrite Nat.sub_0_r.
      * destruct k as [|k]; [lia|].
        apply (Hch j (S k) a b); auto with lia.
        simpl. now rewrite Nat.sub_0_r.
    + apply update_raise_frame in E. subst self1.
      exists []. split; [exact Hp|].
      intros [|j] [|[|k]] a b Hjk _ Ha Hb; simpl in *; try lia; discriminate.
Qed.

(** C10: in a constructed estimator, whatever updates it is taken through,
    if a stored snapshot has a zero (of either sign) at hypothesis [i],
    then so has every later snapshot that was appended by a successful
    update, one whose total was finite and nonzero. *)
Theorem zeros_are_absorbing
    (H : ndarray float64) (d : rv_discrete float64)
    (ls : list (ndarray float64)) (i j k : nat) (a b : ndarray float64) :
  j < k ->
  successful_at ls (__init__ H d) (k - 1) = true ->
  posteriors (snd (updates ls (__init__ H d))) !! j = Some a ->
  posteriors (snd (updates ls (__init__ H d))) !! k = Some b ->
  zero_at i a -> zero_at i b.
Proof.
  intros Hjk Hs Ha Hb.
  destruct (zero_absorbed_run i ls (__init__ H d) [] (pmf d H) eq_refl)
    as (ps & Hrun & Hch).
  rewrite Hrun in Ha, Hb. simpl in Ha, Hb.
  exact (Hch j k a b Hjk Hs Ha Hb).
Qed.

Lemma zeros_are_absorbing_witness :
  zero_at 0 [S754_zero false;
             S754_finite false 7205759403792794 (-53);
             S754_finite false 7205759403792794 (-55)].
Proof.
  apply (zeros_are_absorbing (arange 1 4) (randint 2 4) [lik_three; lik_three]
           0 0 2 [S754_zero false; f64_frac 1 2; f64_frac 1 2]).
  - lia.
  - vm_compute. reflexivity.
  - vm_compute. reflexivity.
  - vm_compute. reflexivity.
  - exists (S754_zero false). split; reflexivity.
Defined.

(** ** The quantile helper *)

Lemma getitem_probs h p : getitem (row_of h p) "probabilities" = Return p.
Proof. reflexivity. Qed.

Lemma getitem_hypos h p : getitem (row_of h p) "number of rabbits" = Return h.
Proof. reflexivity. Qed.

Lemma df_of_rows (hypos probs : list float64) :
  length hypos = length probs ->
  df_of hypos probs = Return (zip_with row_of hypos probs).
Proof.
  intros Hlen. unfold df_of. simpl.
  rewrite length_map, Hlen, Nat.eqb_refl. f_equal.
  clear Hlen. revert probs.
  induction hypos as [|h hypos IH]; intros [|p probs]; simpl; try reflexivity.
  now rewrite IH.
Qed.

(** The loop stops at the first row where the accumulated mass reaches
    the target. *)
Lemma get_quantile_loop_found (desired_prob : float64) :
  forall (hypos probs : list float64) (acc : float64) (i : nat) (h : float64),
  length hypos = length probs ->
  hypos !! i = Some h ->
  f64_ge (fold_left f64_add (take (S i) probs) acc) desired_prob = true ->
  (forall j, j < i ->
     f64_ge (fold_left f64_add (take (S j) probs) acc) desired_prob = false) ->
  get_quantile_loop (zip_with row_of hypos probs)
    "probabilities" "number of rabbits" desired_prob acc = Return h.
Proof.
  induction hypos as [|h0 hypos IH]; intros [|q probs] acc i h Hlen Hi Hge Hlt;
    try discriminate.
  simpl zip_with. cbn [get_quantile_loop]. rewrite getitem_probs.
  destruct i as [|i].
  - simpl in Hge, Hi. injection Hi as <-. rewrite Hge. apply getitem_hypos.
  - pose proof (Hlt 0 ltac:(lia)) as H0. simpl in H0. rewrite H0.
    apply (IH probs (f64_add acc q) i h).
    + simpl in Hlen. lia.
    + exact Hi.
    + exact Hge.
    + intros j Hj. apply (Hlt (S j)). lia.
Qed.

(** The loop falls through to [np.nan] when no row reaches the target. *)
Lemma get_quantile_loop_missing (desired_prob : float64) :
  forall (hypos probs : list float64) (acc : float64),
  length hypos = length probs ->
  (forall j, j < length probs ->
     f64_ge (fold_left f64_add (take (S j) probs) acc) desired_prob = false) ->
  get_quantile_loop (zip_with row_of hypos probs)
    "probabilities" "number of rabbits" desired_prob acc = Return np_nan.
Proof.
  induction hypos as [|h0 hypos IH]; intros [|q probs] acc Hlen Hlt;
    try discriminate; [reflexivity|].
  simpl zip_with. cbn [get_quantile_loop]. rewrite getitem_probs.
  pose proof (Hlt 0 ltac:(simpl; lia)) as H0. simpl in H0. rewrite H0.
  apply IH.
  - simpl in Hlen. lia.
  - intros j Hj. apply (Hlt (S j)). simpl. lia.
Qed.

(** C4: on the frame pairing hypotheses with a stored distribution, if
    the mass accumulated in hypothesis order reaches the target [p] at row
    [i] and at no earlier row, [get_quantile] returns hypothesis [i].  For
    the uniform distribution over the hypotheses 1..10 (0.1 each), the 0.05
    quantile is the first hypothesis and the 0.95 quantile the tenth. *)
Theorem get_quantile_first_reaching :
  (forall (hypos probs : ndarray float64) (p : float64) (i : nat) (h : float64),
      length hypos = length probs ->
      hypos !! i = Some h ->
      f64_ge (accumulated probs i) p = true ->
      (forall j, j < i -> f64_ge (accumulated probs j) p = false) ->
      exists df,
        df_of hypos probs = Return df /\
        get_quantile df "probabilities" "number of rabbits" p = Return h) /\
  (exists df,
      df_of (arange 1 11) (repeat (f64_frac 1 10) 10) = Return df /\
      get_quantile df "probabilities" "number of rabbits" (f64_frac 5 100)
        = Return (f64_of_Z 1) /\
      get_quantile df "probabilities" "number of rabbits" (f64_frac 95 100)
        = Return (f64_of_Z 10)).
Proof.
  split.
  - intros hypos probs p i h Hlen Hi Hge Hlt.
    exists (zip_with row_of hypos probs). split; [now apply df_of_rows|].
    unfold get_quantile. now apply (get_quantile_loop_found p hypos probs _ i).
  - exists (zip_with row_of (arange 1 11) (repeat (f64_frac 1 10) 10)).
    split; [now apply df_of_rows|].
    split; vm_compute; reflexivity.
Qed.

Lemma get_quantile_first_reaching_witness :
  exists df,
    df_of (arange 1 4) [f64_frac 1 4; f64_frac 1 4; f64_frac 1 2] = Return df /\
    get_quantile df "probabilities" "number of rabbits" (f64_frac 1 2)
      = Return (f64_of_Z 2).
Proof.
  apply (proj1 get_quantile_first_reaching (arange 1 4)
           [f64_frac 1 4; f64_frac 1 4; f64_frac 1 2] (f64_frac 1 2) 1 (f64_of_Z 2)).
  - reflexivity.
  - vm_compute. reflexivity.
  - vm_compute. reflexivity.
  - intros j Hj. assert (j = 0) as -> by lia. vm_compute. reflexivity.
Defined.

(** C5, counterexample: with a NaN among the hypotheses, the value
    returned when the scan stops at that hypothesis (target 0.25, mass
    0.5) is the value returned when the scan never reaches the target
    (0.75): NaN by normal return, both times. *)
Lemma get_quantile_sentinel_counterexample :
  exists df,
    df_of [np_nan] [f64_frac 1 2] = Return df /\
    f64_ge (accumulated [f64_frac 1 2] 0) (f64_frac 1 4) = true /\
    get_quantile df "probabilities" "number of rabbits" (f64_frac 1 4)
      = Return np_nan /\
    f64_ge (accumulated [f64_frac 1 2] 0) (f64_frac 3 4) = false /\
    get_quantile df "probabilities" "number of rabbits" (f64_frac 3 4)
      = Return np_nan /\
    np_nan ∈ [np_nan].
Proof.
  exists [row_of np_nan (f64_frac 1 2)].
  repeat split; try (vm_compute; reflexivity).
  apply list_elem_of_here.
Qed.

(** C5, as the code has it: when the scan never reaches the target,
    [get_quantile] returns NaN by a normal return; NaN is no hypothesis
    of the frame provided no hypothesis is itself NaN. *)
Theorem get_quantile_missing_returns_nan
    (hypos probs : ndarray float64) (p : float64) :
  length hypos = length probs ->
  (forall j, j < length probs -> f64_ge (accumulated probs j) p = false) ->
  exists df,
    df_of hypos probs = Return df /\
    get_quantile df "probabilities" "number of rabbits" p = Return np_nan /\
    (Forall (fun h => is_nan h = false) hypos -> np_nan ∉ hypos).
Proof.
  intros Hlen Hlt.
  exists (zip_with row_of hypos probs). split; [now apply df_of_rows|]. split.
  - unfold get_quantile. now apply get_quantile_loop_missing.
  - intros Hall Hin. rewrite Forall_forall in Hall.
    specialize (Hall _ Hin). discriminate Hall.
Qed.

Lemma get_quantile_missing_returns_nan_witness :
  exists df,
    df_of (arange 1 3) [f64_frac 1 4; f64_frac 1 4] = Return df /\
    get_quantile df "probabilities" "number of rabbits" (f64_frac 3 4)
      = Return np_nan /\
    (Forall (fun h => is_nan h = false) (arange 1 3) -> np_nan ∉ arange 1 3).
Proof.
  apply (get_quantile_missing_returns_nan (arange 1 3)
           [f64_frac 1 4; f64_frac 1 4] (f64_frac 3 4)).
  - reflexivity.
  - intros j Hj. simpl in Hj.
    assert (j = 0 \/ j = 1) as [-> | ->] by lia; vm_compute; reflexivity.
Defined.

(** * Further properties of the code *)

(** ** When [update] returns, and with what shape *)

Section UpdateShape.
Context {F : Type} `{!Scalar F}.
Implicit Types (self : BayesianEstimation F) (p l u : ndarray F).

Lemma ndarray_mul_shape p l :
  if broadcastable (length p) (length l)
  then exists u, ndarray_mul p l = Return u /\
                 length u = broadcast_length (length p) (length l)
  else ndarray_mul p l = Raise ValueError.
Proof.
  unfold broadcastable, broadcast_length.
  destruct l as [|y [|y' l]].
  - destruct p as [|x [|x' p]]; simpl; eauto.
  - rewrite ndarray_mul_broadcast_r. simpl.
    rewrite orb_true_r. simpl. eexists. split; [reflexivity|].
    now rewrite length_map.
  - destruct p as [|x [|x' p]]; simpl.
    + reflexivity.
    + eexists. split; [reflexivity|]. simpl. now rewrite length_map.
    + rewrite !orb_false_r.
      destruct (Nat.eqb_spec (length p) (length l)) as [E|E]; [|reflexivity].
      eexists. split; [reflexivity|]. simpl. rewrite length_zip_with. lia.
Qed.

(** X1: [update] raises [IndexError] exactly when the history is empty and
    [ValueError] exactly when the likelihood's length and the current
    posterior's neither agree nor include a 1; in every other case it
    returns an array of the broadcast length. *)
Theorem update_outcome_by_shape self l :
  match last (posteriors self) with
  | None => fst (update l self) = Raise IndexError
  | Some p =>
      if broadcastable (length p) (length l)
      then exists post,
             fst (update l self) = Return post /\
             length post = broadcast_length (length p) (length l)
      else fst (update l self) = Raise ValueError
  end.
Proof.
  destruct (list_snoc_cases (posteriors self)) as [E|(h & p & E)].
  - rewrite E. simpl. now rewrite (update_empty _ _ E).
  - rewrite E, last_snoc, (update_unfold _ _ _ _ E).
    pose proof (ndarray_mul_shape p l) as Hs.
    destruct (broadcastable (length p) (length l)).
    + destruct Hs as (u & -> & Hu). simpl. eexists. split; [reflexivity|].
      unfold ndarray_div. now rewrite length_map.
    + now rewrite Hs.
Qed.

(** Likelihoods of the hypotheses' length keep every snapshot at that
    length, and no call raises. *)
Lemma updates_keep_length (n : nat) (ls : list (ndarray F)) :
  forall self h p,
  posteriors self = h ++ [p] -> length p = n ->
  Forall (fun l => length l = n) ls ->
  exists ps,
    updates ls self = (Return ps, set_posteriors (h ++ p :: ps) self) /\
    length ps = length ls /\
    Forall (fun snap => length snap = n) ps.
Proof.
  induction ls as [|l ls IH]; intros self h p Hp Hn Hls.
  - exists []. repeat split; [|constructor].
    simpl. unfold ret. f_equal. destruct self; simpl in *. now subst.
  - inversion Hls as [|? ? Hl Hls']; subst.
    pose proof (update_same_length self h p l Hp Hl) as Hup.
    destruct (IH (set_posteriors (h ++ [p; normalized p l]) self)
                (h ++ [p]) (normalized p l)) as (ps & Hrun & Hlen & Hall).
    { simpl. now rewrite <- app_assoc. }
    { unfold normalized, ndarray_div, unnormalized.
      rewrite length_map, length_zip_with. lia. }
    { assumption. }
    exists (normalized p l :: ps). split; [|split].
    + simpl. unfold bind at 1. rewrite Hup. unfold bind at 1. rewrite Hrun.
      unfold ret, bind, set_posteriors. simpl. now rewrite <- app_assoc.
    + simpl. now rewrite Hlen.
    + constructor; [|assumption].
      unfold normalized, ndarray_div, unnormalized.
      rewrite length_map, length_zip_with. lia.
Qed.

End UpdateShape.

(** X2: a constructed estimator fed likelihoods of the hypotheses' length
    never raises, keeps its hypotheses, and every snapshot of its history,
    the prior included, has the hypotheses' length. *)
Theorem updates_well_shaped {F : Type} `{!Scalar F}
    (H : ndarray F) (d : rv_discrete F) (ls : list (ndarray F)) :
  Forall (fun l => length l = length H) ls ->
  exists ps self',
    updates ls (__init__ H d) = (Return ps, self') /\
    hypotheses self' = H /\
    length (posteriors self') = length ls + 1 /\
    Forall (fun snap => length snap = length (hypotheses self'))
      (posteriors self').
Proof.
  intros Hls.
  destruct (updates_keep_length (length H) ls (__init__ H d) [] (pmf d H))
    as (ps & Hrun & Hlen & Hall); auto.
  { unfold pmf. now rewrite length_map. }
  exists ps, (set_posteriors ([] ++ pmf d H :: ps) (__init__ H d)).
  split; [assumption|]. split; [reflexivity|]. split.
  - simpl. rewrite Hlen. lia.
  - simpl. constructor; [|assumption]. unfold pmf. now rewrite length_map.
Qed.

Lemma updates_well_shaped_witness :
  exists ps self',
    updates [lik_half_quarter; lik_tenths] two_problem = (Return ps, self') /\
    hypotheses self' = arange 1 3 /\
    length (posteriors self') = 2 + 1 /\
    Forall (fun snap => length snap = length (hypotheses self'))
      (posteriors self').
Proof.
  apply (updates_well_shaped (arange 1 3) (randint 1 3)
           [lik_half_quarter; lik_tenths]).
  repeat constructor.
Defined.

(** ** The class against the computation by hand *)

(** X3: the class reproduces the cells it replaces.  For any hypotheses,
    prior distribution and two likelihood arrays, in any arithmetic,
    two calls of [update] return exactly [day2_posteriors] and
    [day3_posteriors] and leave the history [[priors, day2_posteriors,
    day3_posteriors]]; when a product fails to broadcast by hand, the same
    exception comes out of the class. *)
Theorem class_matches_by_hand {F : Type} `{!Scalar F}
    (H : ndarray F) (d : rv_discrete F) (l2 l3 : ndarray F) :
  match by_hand (pmf d H) l2 l3 with
  | Return (p2, p3) =>
      updates [l2; l3] (__init__ H d) =
        (Return [p2; p3], set_posteriors [pmf d H; p2; p3] (__init__ H d))
  | Raise e => fst (updates [l2; l3] (__init__ H d)) = Raise e
  end.
Proof.
  unfold by_hand, day2_unnorm_posts, day3_unnorm_posts, day3_priors,
    day2_posteriors, day3_posteriors.
  pose proof (update_unfold (__init__ H d) [] (pmf d H) l2 eq_refl) as Hup2.
  destruct (ndarray_mul (pmf d H) l2) as [u2|e].
  - simpl in Hup2.
    pose proof (update_unfold
                  (set_posteriors [pmf d H; ndarray_div u2 (ndarray_sum u2)]
                     (__init__ H d))
                  [pmf d H] (ndarray_div u2 (ndarray_sum u2)) l3 eq_refl) as Hup3.
    destruct (ndarray_mul (ndarray_div u2 (ndarray_sum u2)) l3) as [u3|e];
      simpl updates; unfold bind at 1; rewrite Hup2; unfold bind at 1;
      unfold bind at 1; rewrite Hup3; reflexivity.
  - simpl updates. unfold bind at 1. now rewrite Hup2.
Qed.

(** ** Exact arithmetic: what a likelihood can and cannot change *)

Section LastPosterior.
Context {F : Type} `{!Scalar F}.

Lemma updates_cons (l : ndarray F) (ls : list (ndarray F))
    (self : BayesianEstimation F) :
  updates (l :: ls) self =
    match update l self with
    | (Return p, self1) =>
        match updates ls self1 with
        | (Return ps, self2) => (Return (p :: ps), self2)
        | (Raise e, self2) => (Raise e, self2)
        end
    | (Raise e, self1) => (Raise e, self1)
    end.
Proof.
  simpl. unfold bind at 1.
  destruct (update l self) as [[p|e] self1]; [|reflexivity].
  unfold bind, ret. now destruct (updates ls self1) as [[ps|e] self2].
Qed.

(** What a run of updates returns depends on the history only through
    its last snapshot. *)
Lemma updates_depend_on_last (ls : list (ndarray F)) :
  forall (self1 self2 : BayesianEstimation F) h1 h2 p,
  posteriors self1 = h1 ++ [p] -> posteriors self2 = h2 ++ [p] ->
  fst (updates ls self1) = fst (updates ls self2).
Proof.
  induction ls as [|l ls IH]; intros self1 self2 h1 h2 p H1 H2; [reflexivity|].
  rewrite !updates_cons.
  rewrite (update_unfold _ _ _ l H1), (update_unfold _ _ _ l H2).
  destruct (ndarray_mul p l) as [u|e]; [|reflexivity]. simpl.
  specialize (IH (set_posteriors (h1 ++ [p; ndarray_div u (ndarray_sum u)]) self1)
                (set_posteriors (h2 ++ [p; ndarray_div u (ndarray_sum u)]) self2)
                (h1 ++ [p]) (h2 ++ [p]) (ndarray_div u (ndarray_sum u))).
  simpl in IH. rewrite <- !app_assoc in IH. specialize (IH eq_refl eq_refl).
  destruct (updates ls _) as [[ps1|e1] s1], (updates ls _) as [[ps2|e2] s2];
    simpl in IH |- *; congruence.
Qed.

End LastPosterior.

Local Open Scope Qc_scope.

Lemma Qc_fold_scale (c : Qc) (u : list Qc) : forall a,
  fold_left Qcplus (map (Qcmult c) u) (c * a) = c * fold_left Qcplus u a.
Proof.
  induction u as [|x u IH]; simpl; intros a; [reflexivity|].
  rewrite <- IH. f_equal. ring.
Qed.

Lemma Qc_sum_scale (c : Qc) (u : list Qc) :
  ndarray_sum (map (Qcmult c) u) = c * ndarray_sum u.
Proof.
  rewrite !Qc_ndarray_sum.
  replace (0 : Qc) with (c * 0) at 1 by ring. apply Qc_fold_scale.
Qed.

Lemma Qc_div_scale (c : Qc) (u : list Qc) :
  c <> 0 -> ndarray_sum u <> 0 ->
  ndarray_div (map (Qcmult c) u) (ndarray_sum (map (Qcmult c) u)) =
  ndarray_div u (ndarray_sum u).
Proof.
  intros Hc Ht. rewrite Qc_sum_scale. unfold ndarray_div. simpl.
  rewrite map_map. apply map_ext. intros x. field. auto.
Qed.

Lemma Qc_zip_scale_r (c : Qc) (p l : list Qc) :
  zip_with Qcmult p (map (Qcmult c) l) = map (Qcmult c) (zip_with Qcmult p l).
Proof.
  revert l. induction p as [|x p IH]; intros [|y l]; simpl; try reflexivity.
  rewrite IH. f_equal. ring.
Qed.

Lemma Qc_zip_scale_l (c : Qc) (p l : list Qc) :
  zip_with Qcmult (map (Qcmult c) p) l = map (Qcmult c) (zip_with Qcmult p l).
Proof.
  revert l. induction p as [|x p IH]; intros [|y l]; simpl; try reflexivity.
  rewrite IH. f_equal. ring.
Qed.

(** Scaling either operand of a product scales the product, broadcast or
    not. *)
Lemma Qc_mul_scale_r (c : Qc) (p l : list Qc) :
  ndarray_mul p (map (Qcmult c) l) =
  match ndarray_mul p l with
  | Return u => Return (map (Qcmult c) u)
  | Raise e => Raise e
  end.
Proof.
  destruct l as [|y [|y' l]].
  - now destruct p as [|x [|x' p]].
  - simpl map. rewrite !ndarray_mul_broadcast_r. f_equal. simpl.
    rewrite map_map. apply map_ext. intros x. ring.
  - destruct p as [|x [|x' p]].
    + reflexivity.
    + simpl. f_equal. f_equal; [ring|]. f_equal; [ring|].
      rewrite !map_map. apply map_ext. intros z. ring.
    + change (map (Qcmult c) (y :: y' :: l))
        with (c * y :: c * y' :: map (Qcmult c) l).
      cbn [ndarray_mul length]. rewrite length_map.
      destruct (Nat.eqb _ _); [|reflexivity].
      f_equal.
      change (c * y :: c * y' :: map (Qcmult c) l)
        with (map (Qcmult c) (y :: y' :: l)).
      apply (Qc_zip_scale_r c (x :: x' :: p) (y :: y' :: l)).
Qed.

Lemma Qc_mul_scale_l (c : Qc) (p l : list Qc) :
  ndarray_mul (map (Qcmult c) p) l =
  match ndarray_mul p l with
  | Return u => Return (map (Qcmult c) u)
  | Raise e => Raise e
  end.
Proof.
  destruct l as [|y [|y' l]].
  - now destruct p as [|x [|x' p]].
  - rewrite !ndarray_mul_broadcast_r. f_equal. simpl.
    rewrite !map_map. apply map_ext. intros x. ring.
  - destruct p as [|x [|x' p]].
    + reflexivity.
    + simpl. f_equal. f_equal; [ring|]. f_equal; [ring|].
      rewrite !map_map. apply map_ext. intros z. ring.
    + change (map (Qcmult c) (x :: x' :: p))
        with (c * x :: c * x' :: map (Qcmult c) p).
      cbn [ndarray_mul length]. rewrite length_map.
      destruct (Nat.eqb _ _); [|reflexivity].
      f_equal.
      change (c * x :: c * x' :: map (Qcmult c) p)
        with (map (Qcmult c) (x :: x' :: p)).
      apply (Qc_zip_scale_l c (x :: x' :: p) (y :: y' :: l)).
Qed.

(** X4: in exact arithmetic only the proportions of a likelihood matter:
    multiplying every entry by the same nonzero constant changes neither
    what [update] returns nor the state it leaves. *)
Theorem likelihood_scale_invariant
    (self : BayesianEstimation Qc) (L : ndarray Qc) (c : Qc) :
  successfulQ L self = true ->
  c <> 0 ->
  update (map (Qcmult c) L) self = update L self.
Proof.
  intros Hs Hc.
  destruct (successfulQ_update _ _ Hs) as (h & p & u & Hp & Hm & Hne & Hup).
  rewrite Hup, (update_unfold _ _ _ _ Hp), Qc_mul_scale_r, Hm. simpl.
  now rewrite Qc_div_scale.
Qed.

Lemma likelihood_scale_invariant_witness :
  update (map (Qcmult (Qc_frac 7 2)) lik_tenth_quarterQ) two_problemQ =
  update lik_tenth_quarterQ two_problemQ.
Proof.
  apply (likelihood_scale_invariant two_problemQ lik_tenth_quarterQ (Qc_frac 7 2)).
  - vm_compute. reflexivity.
  - vm_compute. discriminate.
Defined.

(** X5: in exact arithmetic an unnormalized prior costs nothing: two
    estimators over the same hypotheses whose prior pmfs differ by a
    nonzero constant factor return the same posteriors from every update
    of a run, as soon as the total of the first update is not zero;
    nothing is asked of the later updates. *)
Theorem prior_scale_invariant
    (H : ndarray Qc) (d1 d2 : rv_discrete Qc) (c : Qc)
    (l : ndarray Qc) (ls : list (ndarray Qc)) :
  (forall k, pmf_at d2 k = c * pmf_at d1 k) ->
  c <> 0 ->
  successfulQ l (__init__ H d1) = true ->
  fst (updates (l :: ls) (__init__ H d2)) =
  fst (updates (l :: ls) (__init__ H d1)).
Proof.
  intros Hd Hc Hs.
  destruct (successfulQ_update _ _ Hs) as (h & p & u & Hp & Hm & Hne & Hup).
  destruct h as [|? [|? ?]]; try discriminate. simpl in Hp.
  injection Hp as <-.
  assert (Hpmf : pmf d2 H = map (Qcmult c) (pmf d1 H)).
  { unfold pmf. rewrite map_map. apply map_ext. intros k. apply Hd. }
  rewrite !updates_cons, Hup.
  rewrite (update_unfold (__init__ H d2) [] (pmf d2 H) l eq_refl).
  rewrite Hpmf, Qc_mul_scale_l, Hm. simpl. rewrite Qc_div_scale by assumption.
  pose proof (updates_depend_on_last ls
    (set_posteriors [map (Qcmult c) (pmf d1 H); ndarray_div u (ndarray_sum u)]
       (__init__ H d2))
    (set_posteriors [pmf d1 H; ndarray_div u (ndarray_sum u)] (__init__ H d1))
    [map (Qcmult c) (pmf d1 H)] [pmf d1 H] (ndarray_div u (ndarray_sum u))
    eq_refl eq_refl) as Hrest.
  destruct (updates ls _) as [[ps1|e1] s1], (updates ls _) as [[ps2|e2] s2];
    simpl in Hrest |- *; congruence.
Qed.

Lemma prior_scale_invariant_witness :
  fst (updates [lik_tenthsQ; lik_tenth_quarterQ]
         (__init__ (arange 1 3)
            {| pmf_at := fun k => Qc_frac 3 1 * pmf_at (randint 1 3) k |})) =
  fst (updates [lik_tenthsQ; lik_tenth_quarterQ]
         (__init__ (arange 1 3) (randint 1 3))).
Proof.
  apply (prior_scale_invariant (arange 1 3) (randint 1 3)
           {| pmf_at := fun k => Qc_frac 3 1 * pmf_at (randint 1 3) k |}
           (Qc_frac 3 1) lik_tenthsQ [lik_tenth_quarterQ]).
  - intros k. reflexivity.
  - vm_compute. discriminate.
  - vm_compute. reflexivity.
Defined.

Lemma Qc_zip_repeat (c : Qc) (p : list Qc) :
  zip_with Qcmult p (repeat c (length p)) = map (fun x => x * c) p.
Proof. induction p as [|x p IH]; simpl; [reflexivity|]. now rewrite IH. Qed.

Lemma Qc_fold_scale_r (c : Qc) (u : list Qc) : forall a,
  fold_left Qcplus (map (fun x => x * c) u) (a * c) = fold_left Qcplus u a * c.
Proof.
  induction u as [|x u IH]; simpl; intros a; [reflexivity|].
  rewrite <- IH. f_equal. ring.
Qed.

Lemma Qc_constant_normalizes (c : Qc) (P : list Qc) :
  ndarray_sum P = 1 -> c <> 0 ->
  ndarray_div (map (fun x => x * c) P) (ndarray_sum (map (fun x => x * c) P)) = P.
Proof.
  intros Hsum Hc.
  assert (Ht : ndarray_sum (map (fun x => x * c) P) = c).
  { rewrite Qc_ndarray_sum in Hsum |- *.
    replace (0 : Qc) with (0 * c) at 1 by ring.
    rewrite Qc_fold_scale_r, Hsum. ring. }
  rewrite Ht. unfold ndarray_div. simpl. rewrite map_map.
  rewrite <- (map_id P) at 2. apply map_ext. intros x. field. assumption.
Qed.

(** X6: in exact arithmetic evidence that is equally likely under every
    hypothesis teaches nothing: a normalized posterior is returned
    unchanged by [update] with a nonzero constant likelihood, given as a
    one-element array or as a full-length one. *)
Theorem constant_likelihood_uninformative
    (self : BayesianEstimation Qc) (h : list (ndarray Qc)) (P : ndarray Qc)
    (c : Qc) :
  posteriors self = h ++ [P] ->
  ndarray_sum P = 1 ->
  c <> 0 ->
  fst (update [c] self) = Return P /\
  fst (update (repeat c (length P)) self) = Return P.
Proof.
  intros Hp Hsum Hc. split.
  - rewrite (update_unfold _ _ _ _ Hp), ndarray_mul_broadcast_r. simpl.
    f_equal. now apply Qc_constant_normalizes.
  - rewrite (update_same_length self h P _ Hp) by now rewrite repeat_length.
    simpl. f_equal. unfold normalized, total, unnormalized. simpl.
    rewrite Qc_zip_repeat. now apply Qc_constant_normalizes.
Qed.

Lemma constant_likelihood_uninformative_witness :
  fst (update [Qc_frac 3 10] two_problemQ) = Return [Qc_frac 1 2; Qc_frac 1 2] /\
  fst (update (repeat (Qc_frac 3 10) (length [Qc_frac 1 2; Qc_frac 1 2]))
         two_problemQ) = Return [Qc_frac 1 2; Qc_frac 1 2].
Proof.
  apply (constant_likelihood_uninformative two_problemQ []
           [Qc_frac 1 2; Qc_frac 1 2] (Qc_frac 3 10)).
  - vm_compute. reflexivity.
  - apply Qc_is_canon. vm_compute. reflexivity.
  - vm_compute. discriminate.
Defined.

Lemma Qc_zip_mul_assoc (p l1 l2 : list Qc) :
  zip_with Qcmult p (zip_with Qcmult l1 l2) =
  zip_with Qcmult (zip_with Qcmult p l1) l2.
Proof.
  revert l1 l2.
  induction p as [|x p IH]; intros [|y1 l1] [|y2 l2]; simpl; try reflexivity.
  rewrite IH. f_equal. ring.
Qed.

(** X7: in exact arithmetic two pieces of evidence can be folded in at
    once: the posterior after [update(L1)] then [update(L2)] is the one a
    single [update] with the elementwise product [L1 * L2] returns. *)
Theorem two_updates_as_one
    (self : BayesianEstimation Qc) (h : list (ndarray Qc))
    (P L1 L2 : ndarray Qc) :
  posteriors self = h ++ [P] ->
  length L1 = length P -> length L2 = length P ->
  all_successfulQ [L1; L2] self = true ->
  exists a1 a2,
    updates [L1; L2] self =
      (Return [a1; a2], set_posteriors (h ++ [P; a1; a2]) self) /\
    fst (update (zip_with Qcmult L1 L2) self) = Return a2.
Proof.
  intros Hp H1 H2 Hok.
  exists (normalized P L1), (normalized (normalized P L1) L2).
  split; [now apply updates_two|].
  destruct (all_successful_two _ self h P L1 L2 Hp H1 H2 Hok) as [Ha Hb].
  apply Qc_is_zero_false in Ha, Hb.
  rewrite (update_same_length self h P _ Hp)
    by (rewrite length_zip_with; lia).
  simpl. f_equal. rewrite Qc_normalized_twice by assumption.
  unfold normalized, total, unnormalized. simpl.
  now rewrite Qc_zip_mul_assoc.
Qed.

Lemma two_updates_as_one_witness :
  exists a1 a2,
    updates [lik_tenthsQ; lik_tenth_quarterQ] two_problemQ =
      (Return [a1; a2],
       set_posteriors ([] ++ [[Qc_frac 1 2; Qc_frac 1 2]; a1; a2]) two_problemQ) /\
    fst (update (zip_with Qcmult lik_tenthsQ lik_tenth_quarterQ) two_problemQ)
      = Return a2.
Proof.
  apply (two_updates_as_one two_problemQ [] [Qc_frac 1 2; Qc_frac 1 2]
           lik_tenthsQ lik_tenth_quarterQ).
  - vm_compute. reflexivity.
  - reflexivity.
  - reflexivity.
  - vm_compute. reflexivity.
Defined.

Lemma Qc_fold_ge_acc (u : list Qc) : forall a,
  Forall (fun x => 0 <= x) u -> a <= fold_left Qcplus u a.
Proof.
  induction u as [|x u IH]; simpl; intros a Hu; [apply Qcle_refl|].
  inversion Hu; subst. eapply Qcle_trans; [|now apply IH].
  replace a with (a + 0) at 1 by ring.
  apply Qcplus_le_compat; [apply Qcle_refl|assumption].
Qed.

Lemma Qc_fold_ge_elem (u : list Qc) : forall a x,
  Forall (fun x => 0 <= x) u -> 0 <= a -> x ∈ u -> x <= fold_left Qcplus u a.
Proof.
  induction u as [|y u IH]; simpl; intros a x Hu Ha Hx.
  - now apply elem_of_nil in Hx.
  - inversion Hu; subst. apply elem_of_cons in Hx as [->|Hx].
    + eapply Qcle_trans; [|now apply Qc_fold_ge_acc].
      replace y with (0 + y) at 1 by ring.
      apply Qcplus_le_compat; [assumption|apply Qcle_refl].
    + apply IH; try assumption.
      replace (0 : Qc) with (0 + 0) by ring. now apply Qcplus_le_compat.
Qed.

Lemma Qc_mul_nonneg (x y : Qc) : 0 <= x -> 0 <= y -> 0 <= x * y.
Proof.
  intros Hx Hy. replace (0 : Qc) with (0 * y) by ring.
  now apply Qcmult_le_compat_r.
Qed.

Lemma Qc_zip_nonneg (p l : list Qc) :
  Forall (fun x => 0 <= x) p -> Forall (fun x => 0 <= x) l ->
  Forall (fun x => 0 <= x) (zip_with Qcmult p l).
Proof.
  intros Hp. revert l. induction Hp as [|a q Ha Hq IH]; intros k Hk; simpl;
    [constructor|].
  destruct Hk as [|b k Hb Hk]; constructor.
  - now apply Qc_mul_nonneg.
  - now apply IH.
Qed.

Lemma Qc_ndarray_mul_nonneg (p l u : list Qc) :
  ndarray_mul p l = Return u ->
  Forall (fun x => 0 <= x) p -> Forall (fun x => 0 <= x) l ->
  Forall (fun x => 0 <= x) u.
Proof.
  intros Hm Hp Hl. destruct l as [|y [|y' l]].
  - destruct p as [|x [|x' p]]; simpl in Hm; try discriminate;
      injection Hm as <-; constructor.
  - rewrite ndarray_mul_broadcast_r in Hm. injection Hm as <-.
    inversion Hl; subst.
    apply Forall_map. eapply Forall_impl; [exact Hp|].
    intros x Hx. now apply Qc_mul_nonneg.
  - destruct p as [|x [|x' p]].
    + discriminate.
    + simpl in Hm. injection Hm as <-. inversion Hp; subst.
      change (Forall (fun x0 => 0 <= x0)
                (map (fun y0 => x * y0) (y :: y' :: l))).
      apply Forall_map. eapply Forall_impl; [exact Hl|].
      intros z Hz. now apply Qc_mul_nonneg.
    + assert (Hlen : length (x :: x' :: p) = length (y :: y' :: l)).
      { simpl in Hm |- *.
        destruct (Nat.eqb_spec (length p) (length l)); [lia|discriminate]. }
      rewrite (ndarray_mul_same_length _ _ Hlen) in Hm. injection Hm as <-.
      now apply (Qc_zip_nonneg (x :: x' :: p) (y :: y' :: l)).
Qed.

(** X8: in exact arithmetic a successful update of a non-negative
    posterior with a non-negative likelihood returns probabilities: every
    entry lies between 0 and 1. *)
Theorem posterior_entries_are_probabilities
    (self : BayesianEstimation Qc) (h : list (ndarray Qc)) (P L : ndarray Qc) :
  posteriors self = h ++ [P] ->
  Forall (fun x => 0 <= x) P ->
  Forall (fun x => 0 <= x) L ->
  successfulQ L self = true ->
  exists post,
    fst (update L self) = Return post /\
    Forall (fun x => 0 <= x /\ x <= 1) post.
Proof.
  intros Hp HP HL Hs.
  destruct (successfulQ_update _ _ Hs) as (h' & p & u & Hp' & Hm & Hne & Hup).
  rewrite Hp in Hp'. apply app_inj_tail in Hp' as [<- <-].
  exists (ndarray_div u (ndarray_sum u)). split; [now rewrite Hup|].
  pose proof (Qc_ndarray_mul_nonneg _ _ _ Hm HP HL) as Hu.
  assert (Hpos : 0 < ndarray_sum u).
  { destruct (Qcle_lt_or_eq 0 (ndarray_sum u)) as [Hlt|Heq]; auto.
    - rewrite Qc_ndarray_sum. apply Qc_fold_ge_acc. assumption.
    - now symmetry in Heq. }
  unfold ndarray_div. apply Forall_map, Forall_forall. intros x Hx. simpl.
  assert (Hdiv : x / ndarray_sum u * ndarray_sum u = x) by (field; assumption).
  split; apply (Qcmult_lt_0_le_reg_r _ _ (ndarray_sum u) Hpos); rewrite Hdiv.
  - replace (0 * ndarray_sum u) with (0 : Qc) by ring.
    rewrite Forall_forall in Hu. now apply Hu.
  - replace (1 * ndarray_sum u) with (ndarray_sum u) by ring.
    rewrite Qc_ndarray_sum.
    apply Qc_fold_ge_elem; try assumption. apply Qcle_refl.
Qed.

Lemma posterior_entries_are_probabilities_witness :
  exists post,
    fst (update lik_tenth_quarterQ two_problemQ) = Return post /\
    Forall (fun x => 0 <= x /\ x <= 1) post.
Proof.
  apply (posterior_entries_are_probabilities two_problemQ []
           [Qc_frac 1 2; Qc_frac 1 2] lik_tenth_quarterQ).
  - vm_compute. reflexivity.
  - constructor; [vm_compute; discriminate|].
    constructor; [vm_compute; discriminate|]. constructor.
  - constructor; [vm_compute; discriminate|].
    constructor; [vm_compute; discriminate|]. constructor.
  - vm_compute. reflexivity.
Defined.

Local Close Scope Qc_scope.

(** ** binary64: signs and NaN *)

Lemma binary_round_aux_nonneg mx ex lx :
  nonneg_or_nan (binary_round_aux prec emax false mx ex lx) = true.
Proof.
  unfold binary_round_aux.
  destruct (shr_fexp prec emax mx ex lx) as [mrs' e'].
  destruct (shr_fexp prec emax _ e' loc_Exact) as [mrs'' e''].
  destruct (shr_m mrs''); [reflexivity| |reflexivity].
  now destruct (Z.leb e'' (emax - prec)).
Qed.

Lemma f64_mul_nonneg x y :
  nonneg_or_nan x = true -> nonneg_or_nan y = true ->
  nonneg_or_nan (f64_mul x y) = true.
Proof.
  destruct x as [[]|[]| |[] mx ex], y as [[]|[]| |[] my ey]; simpl;
    intros; try discriminate; try reflexivity.
  apply binary_round_aux_nonneg.
Qed.

Lemma f64_div_nonneg x y :
  nonneg_or_nan x = true -> nonneg_or_nan y = true ->
  nonneg_or_nan (f64_div x y) = true.
Proof.
  destruct x as [[]|[]| |[] mx ex], y as [[]|[]| |[] my ey]; simpl;
    intros; try discriminate; try reflexivity.
  destruct (SFdiv_core_binary prec emax (Z.pos mx) ex (Z.pos my) ey)
    as [[mz ez] lz].
  apply binary_round_aux_nonneg.
Qed.

Lemma f64_add_nonneg x y :
  nonneg_or_nan x = true -> nonneg_or_nan y = true ->
  nonneg_or_nan (f64_add x y) = true.
Proof.
  destruct x as [[]|[]| |[] mx ex], y as [[]|[]| |[] my ey]; simpl;
    intros; try discriminate; try reflexivity.
  unfold binary_normalize, binary_round.
  destruct (shl_align _ _ _) as [mz ez].
  apply binary_round_aux_nonneg.
Qed.

Lemma ndarray_sum_nonneg (l : list float64) :
  Forall (fun x => nonneg_or_nan x = true) l ->
  nonneg_or_nan (ndarray_sum l) = true.
Proof.
  apply (ndarray_sum_closed (fun x => nonneg_or_nan x = true)); [reflexivity|].
  apply f64_add_nonneg.
Qed.

Lemma zip_mul_nonneg (p l : list float64) :
  Forall (fun x => nonneg_or_nan x = true) p ->
  Forall (fun x => nonneg_or_nan x = true) l ->
  Forall (fun x => nonneg_or_nan x = true) (zip_with f64_mul p l).
Proof.
  intros Hp. revert l. induction Hp as [|a q Ha Hq IH]; intros k Hk; simpl;
    [constructor|].
  destruct Hk as [|b k Hb Hk]; constructor.
  - now apply f64_mul_nonneg.
  - now apply IH.
Qed.

Lemma ndarray_mul_nonneg (p l u : list float64) :
  ndarray_mul p l = Return u ->
  Forall (fun x => nonneg_or_nan x = true) p ->
  Forall (fun x => nonneg_or_nan x = true) l ->
  Forall (fun x => nonneg_or_nan x = true) u.
Proof.
  intros Hm Hp Hl. destruct l as [|y [|y' l]].
  - destruct p as [|x [|x' p]]; simpl in Hm; try discriminate;
      injection Hm as <-; constructor.
  - rewrite ndarray_mul_broadcast_r in Hm. injection Hm as <-.
    inversion Hl; subst.
    apply Forall_map. eapply Forall_impl; [exact Hp|].
    intros x Hx. now apply f64_mul_nonneg.
  - destruct p as [|x [|x' p]].
    + discriminate.
    + simpl in Hm. injection Hm as <-. inversion Hp; subst.
      change (Forall (fun x0 => nonneg_or_nan x0 = true)
                (map (fun y0 => f64_mul x y0) (y :: y' :: l))).
      apply Forall_map. eapply Forall_impl; [exact Hl|].
      intros z Hz. now apply f64_mul_nonneg.
    + assert (Hlen : length (x :: x' :: p) = length (y :: y' :: l)).
      { simpl in Hm |- *.
        destruct (Nat.eqb_spec (length p) (length l)); [lia|discriminate]. }
      rewrite (ndarray_mul_same_length _ _ Hlen) in Hm. injection Hm as <-.
      now apply (zip_mul_nonneg (x :: x' :: p) (y :: y' :: l)).
Qed.

(** X9: in binary64 [update] never turns non-negative inputs into a
    negative entry: if no entry of the current posterior or of the
    likelihood has its sign bit set, no entry of the appended array has,
    whatever the rounding, overflow or NaN along the way (so no -0.0 and
    no -inf either). *)
Theorem update_keeps_sign
    (self : BayesianEstimation float64) (h : list (ndarray float64))
    (P L post : ndarray float64) (self' : BayesianEstimation float64) :
  posteriors self = h ++ [P] ->
  Forall (fun x => nonneg_or_nan x = true) P ->
  Forall (fun x => nonneg_or_nan x = true) L ->
  update L self = (Return post, self') ->
  Forall (fun x => nonneg_or_nan x = true) post.
Proof.
  intros Hp HP HL. rewrite (update_unfold _ _ _ _ Hp).
  destruct (ndarray_mul P L) as [u|e] eqn:Hm; [|discriminate].
  simpl. intros [= <- _].
  pose proof (ndarray_mul_nonneg _ _ _ Hm HP HL) as Hu.
  unfold ndarray_div. apply Forall_map.
  eapply Forall_impl; [exact Hu|]. intros x Hx. simpl.
  apply f64_div_nonneg; [assumption|].
  now apply ndarray_sum_nonneg.
Qed.

Lemma update_keeps_sign_witness :
  Forall (fun x => nonneg_or_nan x = true)
    [S754_finite false 6004799503160661 (-53);
     S754_finite false 6004799503160661 (-54)].
Proof.
  apply (update_keeps_sign two_problem [] [f64_frac 1 2; f64_frac 1 2]
           lik_half_quarter _ (snd (update lik_half_quarter two_problem))).
  - vm_compute. reflexivity.
  - repeat constructor.
  - repeat constructor.
  - rewrite (surjective_pairing (update _ _)).
    f_equal; vm_compute; reflexivity.
Defined.

Lemma f64_mul_nan_l y : f64_mul np_nan y = np_nan.
Proof. reflexivity. Qed.

Lemma f64_mul_nan_r x : f64_mul x np_nan = np_nan.
Proof. now destruct x. Qed.

(** A NaN in either operand of a product shows in the product. *)
Lemma ndarray_mul_nan (p l u : list float64) :
  ndarray_mul p l = Return u ->
  np_nan ∈ p \/ np_nan ∈ l ->
  u = [] \/ np_nan ∈ u.
Proof.
  intros Hm Hin. destruct l as [|y [|y' l]].
  - left. destruct p as [|x [|x' p]]; simpl in Hm; congruence.
  - rewrite ndarray_mul_broadcast_r in Hm. injection Hm as <-.
    destruct Hin as [Hin|Hin].
    + right. apply list_elem_of_In, in_map_iff. exists np_nan.
      split; [reflexivity|]. now apply list_elem_of_In.
    + apply list_elem_of_singleton in Hin. subst y.
      destruct p as [|x p]; [now left|right].
      simpl. rewrite f64_mul_nan_r. apply list_elem_of_here.
  - right. destruct p as [|x [|x' p]].
    + discriminate.
    + simpl in Hm. injection Hm as <-.
      change (np_nan ∈ map (fun y0 => f64_mul x y0) (y :: y' :: l)).
      destruct Hin as [Hin|Hin].
      * apply list_elem_of_singleton in Hin. subst x.
        simpl. apply list_elem_of_here.
      * apply list_elem_of_In, in_map_iff. exists np_nan.
        split; [apply f64_mul_nan_r|]. now apply list_elem_of_In.
    + assert (Hlen : length (x :: x' :: p) = length (y :: y' :: l)).
      { simpl in Hm |- *.
        destruct (Nat.eqb_spec (length p) (length l)); [lia|discriminate]. }
      rewrite (ndarray_mul_same_length _ _ Hlen) in Hm. injection Hm as <-.
      destruct Hin as [Hin|Hin];
        apply list_elem_of_lookup in Hin as [i Hi].
      * destruct (lookup_lt_is_Some_2 (y :: y' :: l) i) as [yi Hyi].
        { apply lookup_lt_Some in Hi. lia. }
        apply (list_elem_of_lookup_2 _ i).
        change ((zip_with f64_mul (x :: x' :: p) (y :: y' :: l)) !! i
                = Some np_nan).
        now rewrite lookup_zip_with, Hi, Hyi.
      * destruct (lookup_lt_is_Some_2 (x :: x' :: p) i) as [xi Hxi].
        { apply lookup_lt_Some in Hi. lia. }
        apply (list_elem_of_lookup_2 _ i).
        change ((zip_with f64_mul (x :: x' :: p) (y :: y' :: l)) !! i
                = Some np_nan).
        rewrite lookup_zip_with, Hxi, Hi. simpl. now rewrite f64_mul_nan_r.
Qed.

(** X10: in binary64 one NaN spoils everything: if the likelihood or the
    current posterior holds a NaN anywhere, every entry of the array
    [update] returns and stores is NaN, for all hypotheses alike. *)
Theorem nan_spoils_whole_posterior
    (self : BayesianEstimation float64) (h : list (ndarray float64))
    (P L post : ndarray float64) (self' : BayesianEstimation float64) :
  posteriors self = h ++ [P] ->
  np_nan ∈ P \/ np_nan ∈ L ->
  update L self = (Return post, self') ->
  Forall (fun x => is_nan x = true) post /\
  last (posteriors self') = Some post.
Proof.
  intros Hp Hin. rewrite (update_unfold _ _ _ _ Hp).
  destruct (ndarray_mul P L) as [u|e] eqn:Hm; [|discriminate].
  simpl. intros [= <- <-]. split.
  - destruct (ndarray_mul_nan _ _ _ Hm Hin) as [->|Hu]; [constructor|].
    unfold ndarray_div. rewrite (ndarray_sum_nan u Hu).
    apply Forall_map, Forall_forall. intros x _. now rewrite f64_div_nan_r.
  - simpl.
    change (h ++ [P; ndarray_div u (ndarray_sum u)])
      with (h ++ [P] ++ [ndarray_div u (ndarray_sum u)]).
    now rewrite app_assoc, last_snoc.
Qed.

Lemma nan_spoils_whole_posterior_witness :
  Forall (fun x => is_nan x = true) [np_nan; np_nan] /\
  last (posteriors (snd (update [f64_frac 1 2; np_nan] two_problem)))
    = Some [np_nan; np_nan].
Proof.
  apply (nan_spoils_whole_posterior two_problem [] [f64_frac 1 2; f64_frac 1 2]
           [f64_frac 1 2; np_nan]).
  - vm_compute. reflexivity.
  - right. apply list_elem_of_further, list_elem_of_here.
  - rewrite (surjective_pairing (update _ _)).
    f_equal; vm_compute; reflexivity.
Defined.

(** X11: in binary64 a degenerate update is final.  When [update] has
    divided by a total that is zero, infinite or NaN, the array it stored
    holds only zeros, infinities and NaN, and no later update of the
    estimator, whatever the likelihoods, has a finite nonzero total
    again. *)
Theorem degenerate_update_is_final
    (self : BayesianEstimation float64) (l post : ndarray float64)
    (self' : BayesianEstimation float64) :
  update l self = (Return post, self') ->
  successful l self = false ->
  dead post /\
  forall (ls : list (ndarray float64)) (n : nat),
    successful_at ls self' n = false.
Proof.
  intros Hup Hs.
  pose proof (unsuccessful_update_dead _ _ _ _ Hup Hs) as Hdead.
  split; [assumption|]. intros ls n.
  apply update_return_appends in Hup. subst self'.
  destruct (list_snoc_cases (posteriors self ++ [post])) as [E|(h & p & E)].
  - now destruct (posteriors self).
  - pose proof E as E'. apply app_inj_tail in E' as [_ <-].
    now apply (dead_never_successful ls _ (posteriors self) post).
Qed.

Lemma degenerate_update_is_final_witness :
  dead [np_nan; np_nan] /\
  forall (ls : list (ndarray float64)) (n : nat),
    successful_at ls (snd (update lik_zeros two_problem)) n = false.
Proof.
  apply (degenerate_update_is_final two_problem lik_zeros).
  - rewrite (surjective_pairing (update _ _)).
    f_equal; vm_compute; reflexivity.
  - vm_compute. reflexivity.
Defined.

(** ** The quantile helper on arbitrary frames *)

Lemma getitem_Return (row : gmap string float64) (col : string) v :
  getitem row col = Return v <-> row !! col = Some v.
Proof.
  unfold getitem. destruct (row !! col); split; congruence.
Qed.

(** X12: on any frame and with any column names and target, a value
    [get_quantile] returns is either NaN or the hypothesis entry of one of
    the frame's rows; it returns nothing else. *)
Theorem get_quantile_returns_a_hypothesis
    (df : list (gmap string float64)) (col_probs col_hypos : string)
    (p v : float64) :
  get_quantile df col_probs col_hypos p = Return v ->
  v = np_nan \/ exists row, row ∈ df /\ row !! col_hypos = Some v.
Proof.
  unfold get_quantile. generalize (S754_zero false).
  induction df as [|row df IH]; intros acc; simpl.
  - intros [= <-]. now left.
  - destruct (getitem row col_probs) as [q|e]; [|discriminate].
    destruct (f64_ge (f64_add acc q) p).
    + intros Hv. right. exists row. split; [apply list_elem_of_here|].
      now apply getitem_Return.
    + intros Hv. destruct (IH _ Hv) as [->|(row' & Hin & Hrow)]; [now left|].
      right. exists row'. split; [now apply list_elem_of_further|assumption].
Qed.

Lemma get_quantile_returns_a_hypothesis_witness :
  f64_of_Z 2 = np_nan \/
  exists row, row ∈ [row_of (f64_of_Z 1) (f64_frac 1 4);
                     row_of (f64_of_Z 2) (f64_frac 1 2)] /\
              row !! "number of rabbits" = Some (f64_of_Z 2).
Proof.
  apply (get_quantile_returns_a_hypothesis _ "probabilities" _ (f64_frac 1 2)).
  vm_compute. reflexivity.
Defined.

Lemma existsb_map_comp {A B} (f : B -> bool) (g : A -> B) (l : list A) :
  existsb f (map g l) = existsb (fun x => f (g x)) l.
Proof. induction l as [|a l IH]; simpl; [reflexivity|]. now rewrite IH. Qed.

(** The scan over rows that all hold a probability but no hypothesis
    column. *)
Lemma get_quantile_loop_no_hypos (col_probs col_hypos : string) (p : float64) :
  forall (df : list (gmap string float64)) (probs : list float64) (acc : float64),
  Forall2 (fun row q => row !! col_probs = Some q /\ row !! col_hypos = None)
    df probs ->
  get_quantile_loop df col_probs col_hypos p acc =
    if existsb (fun i => f64_ge (fold_left f64_add (take (S i) probs) acc) p)
         (seq 0 (length probs))
    then Raise KeyError else Return np_nan.
Proof.
  intros df probs acc Hdf. revert acc.
  induction Hdf as [|row q df probs [Hq Hh] Hdf IH]; intros acc; [reflexivity|].
  cbn [get_quantile_loop length seq existsb]. unfold getitem at 1. rewrite Hq.
  cbn [take fold_left].
  change (take 0 probs) with (@nil float64). cbn [fold_left].
  destruct (f64_ge (f64_add acc q) p).
  - cbn [orb]. unfold getitem. now rewrite Hh.
  - cbn [orb]. rewrite IH, <- seq_shift, existsb_map_comp. reflexivity.
Qed.

(** X13: a wrong hypothesis-column name is only noticed if the target is
    reached.  On a frame whose rows hold the probabilities but no entry
    under [col_hypos], [get_quantile] raises [KeyError] when some row's
    accumulated mass reaches the target, and returns NaN without any
    error when none does. *)
Theorem get_quantile_missing_hypothesis_column
    (df : list (gmap string float64)) (probs : ndarray float64)
    (col_probs col_hypos : string) (p : float64) :
  Forall2 (fun row q => row !! col_probs = Some q /\ row !! col_hypos = None)
    df probs ->
  ((exists i, i < length probs /\ f64_ge (accumulated probs i) p = true) ->
   get_quantile df col_probs col_hypos p = Raise KeyError) /\
  ((forall i, i < length probs -> f64_ge (accumulated probs i) p = false) ->
   get_quantile df col_probs col_hypos p = Return np_nan).
Proof.
  intros Hdf. unfold get_quantile.
  rewrite (get_quantile_loop_no_hypos _ _ _ _ probs _ Hdf).
  split.
  - intros (i & Hi & Hge).
    assert (He : existsb
              (fun i => f64_ge (fold_left f64_add (take (S i) probs)
                                  (S754_zero false)) p)
              (seq 0 (length probs)) = true).
    { apply existsb_exists. exists i. split; [|exact Hge].
      apply in_seq. lia. }
    now rewrite He.
  - intros Hnone.
    assert (He : existsb
              (fun i => f64_ge (fold_left f64_add (take (S i) probs)
                                  (S754_zero false)) p)
              (seq 0 (length probs)) = false).
    { apply not_true_is_false. intros He.
      apply existsb_exists in He as (i & Hi & Hge).
      apply in_seq in Hi. specialize (Hnone i ltac:(lia)).
      unfold accumulated in Hnone. congruence. }
    now rewrite He.
Qed.

Lemma get_quantile_missing_hypothesis_column_witness :
  get_quantile [{["probabilities" := f64_frac 1 4]};
                {["probabilities" := f64_frac 1 2]}]
    "probabilities" "number of rabbits" (f64_frac 1 2) = Raise KeyError /\
  get_quantile [{["probabilities" := f64_frac 1 4]};
                {["probabilities" := f64_frac 1 2]}]
    "probabilities" "number of rabbits" (f64_frac 9 10) = Return np_nan.
Proof.
  split.
  - apply (get_quantile_missing_hypothesis_column
             [{["probabilities" := f64_frac 1 4]};
              {["probabilities" := f64_frac 1 2]}]
             [f64_frac 1 4; f64_frac 1 2]).
    + repeat constructor.
    + exists 1. split; [simpl; lia|vm_compute; reflexivity].
  - apply (get_quantile_missing_hypothesis_column
             [{["probabilities" := f64_frac 1 4]};
              {["probabilities" := f64_frac 1 2]}]
             [f64_frac 1 4; f64_frac 1 2]).
    + repeat constructor.
    + intros i Hi. simpl in Hi.
      assert (i = 0 \/ i = 1) as [-> | ->] by lia; vm_compute; reflexivity.
Defined.

Lemma f64_ge_nan_r x : f64_ge x np_nan = false.
Proof. reflexivity. Qed.

Lemma f64_ge_nan_l x : f64_ge np_nan x = false.
Proof. now destruct x. Qed.

(** X14: a NaN target is never reached.  On any frame whose rows all hold
    a probability, [get_quantile] with target NaN returns NaN, whatever
    the probabilities and even if the hypothesis column does not
    exist. *)
Theorem get_quantile_nan_target
    (df : list (gmap string float64)) (col_probs col_hypos : string) :
  Forall (fun row => is_Some (row !! col_probs)) df ->
  get_quantile df col_probs col_hypos np_nan = Return np_nan.
Proof.
  intros Hdf. unfold get_quantile. generalize (S754_zero false).
  induction Hdf as [|row df [q Hq] Hdf IH]; intros acc; [reflexivity|].
  cbn [get_quantile_loop]. unfold getitem. rewrite Hq.
  cbv zeta. rewrite f64_ge_nan_r. apply IH.
Qed.

Lemma get_quantile_nan_target_witness :
  get_quantile [{["probabilities" := f64_frac 1 4]};
                {["probabilities" := f64_frac 3 4]}]
    "probabilities" "number of rabbits" np_nan = Return np_nan.
Proof.
  apply get_quantile_nan_target.
  repeat constructor; eexists; vm_compute; reflexivity.
Defined.

(** X15: a NaN probability ends the search.  If row [i] of the frame has
    probability NaN and the target was not reached before it, no later
    row can reach it: [get_quantile] returns NaN, however much mass the
    remaining rows carry. *)
Theorem get_quantile_nan_probability
    (hypos probs : ndarray float64) (p : float64) (i : nat) :
  length hypos = length probs ->
  probs !! i = Some np_nan ->
  (forall j, j < i -> f64_ge (accumulated probs j) p = false) ->
  exists df,
    df_of hypos probs = Return df /\
    get_quantile df "probabilities" "number of rabbits" p = Return np_nan.
Proof.
  intros Hlen Hi Hlt.
  exists (zip_with row_of hypos probs). split; [now apply df_of_rows|].
  unfold get_quantile. apply get_quantile_loop_missing; [assumption|].
  intros j Hj. destruct (Nat.lt_ge_cases j i) as [Hji|Hji].
  - now apply Hlt.
  - rewrite (fold_add_nan_elem (take (S j) probs)); [apply f64_ge_nan_l|].
    apply (list_elem_of_lookup_2 _ i).
    rewrite lookup_take_lt by lia. exact Hi.
Qed.

Lemma get_quantile_nan_probability_witness :
  exists df,
    df_of (arange 1 4) [f64_frac 1 4; np_nan; f64_frac 3 4] = Return df /\
    get_quantile df "probabilities" "number of rabbits" (f64_frac 1 2)
      = Return np_nan.
Proof.
  apply (get_quantile_nan_probability (arange 1 4)
           [f64_frac 1 4; np_nan; f64_frac 3 4] (f64_frac 1 2) 1).
  - reflexivity.
  - reflexivity.
  - intros j Hj. assert (j = 0) as -> by lia. vm_compute. reflexivity.
Defined.

(** [<=] on binary64 is transitive. *)
Lemma f64_le_trans (a b c : float64) :
  f64_le a b = true -> f64_le b c = true -> f64_le a c = true.
Proof.
  unfold f64_le, SFleb, SFcompare.
  destruct a as [sa|sa| |sa ma ea], b as [sb|sb| |sb mb eb],
           c as [sc|sc| |sc mc ec];
    try (intros; discriminate);
    try (destruct sa; intros; try discriminate; reflexivity);
    try (destruct sa, sb; intros; try discriminate; reflexivity);
    try (destruct sb, sc; intros; try discriminate; reflexivity);
    try (destruct sa, sc; intros; try discriminate; reflexivity);
    try (destruct sa, sb, sc; intros; try discriminate; reflexivity).
  destruct sa, sb, sc; try (intros; discriminate); try (intros; reflexivity);
    change (Pos.compare_cont Eq ma mb) with (Pos.compare ma mb);
    change (Pos.compare_cont Eq mb mc) with (Pos.compare mb mc);
    change (Pos.compare_cont Eq ma mc) with (Pos.compare ma mc);
    destruct (Z.compare_spec ea eb), (Z.compare_spec eb ec),
             (Z.compare_spec ea ec);
    try (intros; discriminate); try (intros; reflexivity); try lia;
    destruct (Pos.compare_spec ma mb), (Pos.compare_spec mb mc),
             (Pos.compare_spec ma mc);
    simpl; try (intros; discriminate); try (intros; reflexivity); lia.
Qed.

(** The first index at which a predicate that holds somewhere holds. *)
Lemma first_true (f : nat -> bool) (n : nat) :
  f n = true ->
  exists i, i <= n /\ f i = true /\ forall j, j < i -> f j = false.
Proof.
  induction n as [n IH] using lt_wf_ind. intros Hn.
  destruct (existsb f (seq 0 n)) eqn:He.
  - apply existsb_exists in He as (m & Hm & Hfm). apply in_seq in Hm.
    destruct (IH m ltac:(lia) Hfm) as (i & Hi & Hfi & Hmin).
    exists i. repeat split; auto with lia.
  - exists n. repeat split; auto. intros j Hj.
    apply not_true_is_false. intros Hfj.
    assert (Hex : existsb f (seq 0 n) = true).
    { apply existsb_exists. exists j. split; [apply in_seq; lia|assumption]. }
    congruence.
Qed.

(** X16: the quantile is monotone in the target.  If the accumulated mass
    reaches a target [p'] at row [i'], then for every smaller target
    [p <= p'] [get_quantile] returns the hypothesis of a row at or before
    [i']. *)
Theorem get_quantile_monotone
    (hypos probs : ndarray float64) (p p' : float64) (i' : nat) :
  length hypos = length probs ->
  i' < length probs ->
  f64_le p p' = true ->
  f64_ge (accumulated probs i') p' = true ->
  exists df i h,
    df_of hypos probs = Return df /\
    i <= i' /\ hypos !! i = Some h /\
    get_quantile df "probabilities" "number of rabbits" p = Return h.
Proof.
  intros Hlen Hi' Hpp Hge.
  assert (Hreach : f64_ge (accumulated probs i') p = true).
  { unfold f64_ge in *. now apply (f64_le_trans p p' _). }
  destruct (first_true (fun i => f64_ge (accumulated probs i) p) i' Hreach)
    as (i & Hi & Hfi & Hmin).
  destruct (lookup_lt_is_Some_2 hypos i ltac:(lia)) as [h Hh].
  exists (zip_with row_of hypos probs), i, h.
  split; [now apply df_of_rows|]. split; [assumption|]. split; [assumption|].
  unfold get_quantile.
  now apply (get_quantile_loop_found p hypos probs _ i h).
Qed.

Lemma get_quantile_monotone_witness :
  exists df i h,
    df_of (arange 1 4) [f64_frac 1 4; f64_frac 1 4; f64_frac 1 2] = Return df /\
    i <= 2 /\ arange 1 4 !! i = Some h /\
    get_quantile df "probabilities" "number of rabbits" (f64_frac 3 10)
      = Return h.
Proof.
  apply (get_quantile_monotone (arange 1 4)
           [f64_frac 1 4; f64_frac 1 4; f64_frac 1 2]
           (f64_frac 3 10) (f64_frac 9 10) 2).
  - reflexivity.
  - simpl. lia.
  - vm_compute. reflexivity.
  - vm_compute. reflexivity.
Defined.

(** ** From an update to a quantile *)

Lemma get_quantile_loop_total (p : float64) :
  forall (hypos probs : list float64) (acc : float64),
  length hypos = length probs ->
  exists v,
    get_quantile_loop (zip_with row_of hypos probs)
      "probabilities" "number of rabbits" p acc = Return v.
Proof.
  induction hypos as [|h0 hypos IH]; intros [|q probs] acc Hlen;
    try discriminate; [now exists np_nan|].
  simpl zip_with. cbn [get_quantile_loop]. rewrite getitem_probs. cbv zeta.
  destruct (f64_ge (f64_add acc q) p).
  - exists h0. apply getitem_hypos.
  - apply IH. simpl in Hlen. lia.
Qed.

(** X17: the notebook's pipeline has no failure path on well-shaped
    input.  For a constructed estimator and likelihoods of the hypotheses'
    length, the updates return, the frame of hypotheses against the latest
    posterior is built with one row per hypothesis, and [get_quantile] on
    it returns a value for every target (NaN included) without raising. *)
Theorem quantile_pipeline_never_raises
    (H : ndarray float64) (d : rv_discrete float64)
    (ls : list (ndarray float64)) (p : float64) :
  Forall (fun l => length l = length H) ls ->
  exists ps self' post df v,
    updates ls (__init__ H d) = (Return ps, self') /\
    last (posteriors self') = Some post /\
    df_of (hypotheses self') post = Return df /\
    length df = length H /\
    get_quantile df "probabilities" "number of rabbits" p = Return v.
Proof.
  intros Hls.
  destruct (updates_keep_length (length H) ls (__init__ H d) [] (pmf d H))
    as (ps & Hrun & Hlen & Hall); auto.
  { unfold pmf. now rewrite length_map. }
  assert (Hlast : exists post,
             last (pmf d H :: ps) = Some post /\ length post = length H).
  { destruct (list_snoc_cases ps) as [->|(ps' & post & ->)].
    - exists (pmf d H). split; [reflexivity|]. unfold pmf. now rewrite length_map.
    - exists post. split.
      + now rewrite app_comm_cons, last_snoc.
      + rewrite Forall_app in Hall. destruct Hall as [_ Hpost].
        now inversion Hpost. }
  destruct Hlast as (post & Hlast & Hpost).
  destruct (get_quantile_loop_total p H post (S754_zero false)) as [v Hv];
    [now rewrite Hpost|].
  exists ps, (set_posteriors ([] ++ pmf d H :: ps) (__init__ H d)), post,
    (zip_with row_of H post), v.
  split; [assumption|]. split; [assumption|]. split.
  - simpl. apply df_of_rows. now rewrite Hpost.
  - split; [|exact Hv]. rewrite length_zip_with. lia.
Qed.

Lemma quantile_pipeline_never_raises_witness :
  exists ps self' post df v,
    updates [lik_half_quarter; lik_tenths] two_problem = (Return ps, self') /\
    last (posteriors self') = Some post /\
    df_of (hypotheses self') post = Return df /\
    length df = length (arange 1 3 : list float64) /\
    get_quantile df "probabilities" "number of rabbits" (f64_frac 95 100)
      = Return v.
Proof.
  apply (quantile_pipeline_never_raises (arange 1 3) (randint 1 3)
           [lik_half_quarter; lik_tenths] (f64_frac 95 100)).
  repeat constructor.
Defined.

(** ** Dates *)

Lemma is_digit_facts (c : Ascii.ascii) :
  is_digit c = true ->
  is_space c = false /\
  Ascii.eqb c char_minus = false /\
  Ascii.eqb c char_plus = false.
Proof.
  unfold is_digit, is_space. intros Hd.
  apply andb_true_iff in Hd as [H1 H2].
  apply Nat.leb_le in H1, H2.
  split; [|split].
  - destruct (Nat.leb_spec 9 (Ascii.nat_of_ascii c)),
             (Nat.leb_spec (Ascii.nat_of_ascii c) 13),
             (Nat.eqb_spec (Ascii.nat_of_ascii c) 32),
             (Nat.eqb_spec (Ascii.nat_of_ascii c) 133),
             (Nat.eqb_spec (Ascii.nat_of_ascii c) 160); simpl; lia.
  - apply Ascii.eqb_neq. intros ->. vm_compute in H1. lia.
  - apply Ascii.eqb_neq. intros ->. vm_compute in H1. lia.
Qed.

Lemma digit_char_facts (n : nat) :
  n < 10 ->
  is_digit (digit_char n) = true /\ digit_val (digit_char n) = Z.of_nat n.
Proof.
  intros Hn. unfold is_digit, digit_val, digit_char.
  rewrite Ascii.nat_ascii_embedding by lia. split.
  - apply andb_true_iff. split; apply Nat.leb_le; lia.
  - f_equal. lia.
Qed.

Lemma py_int_two_digits (c1 c0 : Ascii.ascii) :
  is_digit c1 = true -> is_digit c0 = true ->
  py_int (String c1 (String c0 EmptyString)) =
    Return (10 * digit_val c1 + digit_val c0)%Z.
Proof.
  intros H1 H0.
  destruct (is_digit_facts c1 H1) as (S1 & M1 & P1).
  destruct (is_digit_facts c0 H0) as (S0 & _ & _).
  unfold py_int. cbn [lstrip]. rewrite S1. cbn [rstrip]. rewrite S0.
  rewrite M1, P1. cbn [parse_digits digits_loop]. rewrite H1, H0.
  reflexivity.
Qed.

Lemma py_int_four_digits (c3 c2 c1 c0 : Ascii.ascii) :
  is_digit c3 = true -> is_digit c2 = true ->
  is_digit c1 = true -> is_digit c0 = true ->
  py_int (String c3 (String c2 (String c1 (String c0 EmptyString)))) =
    Return (10 * (10 * (10 * digit_val c3 + digit_val c2) + digit_val c1)
            + digit_val c0)%Z.
Proof.
  intros H3 H2 H1 H0.
  destruct (is_digit_facts c3 H3) as (S3 & M3 & P3).
  destruct (is_digit_facts c0 H0) as (S0 & _ & _).
  unfold py_int. cbn [lstrip]. rewrite S3. cbn [rstrip]. rewrite S0.
  rewrite M3, P3. cbn [parse_digits digits_loop]. rewrite H3, H2, H1, H0.
  reflexivity.
Qed.

(** X18: the three helpers read back a date written as [YYYY-MM-DD]
    with leading zeros: for every year below 10000 and month and day
    below 100, [get_year], [get_month] and [get_day] return the year, the
    month and the day. *)
Theorem iso_date_round_trip (year month day : nat) :
  year < 10 * 1000 -> month < 100 -> day < 100 ->
  get_year (isoformat year month day) = Return (Z.of_nat year) /\
  get_month (isoformat year month day) = Return (Z.of_nat month) /\
  get_day (isoformat year month day) = Return (Z.of_nat day).
Proof.
  intros Hy Hm Hd.
  assert (Hdiv : forall n k, n < 10 * k -> 0 < k -> n / k < 10).
  { intros n k Hn Hk. apply Nat.Div0.div_lt_upper_bound. lia. }
  assert (Hmod : forall n, n mod 10 < 10).
  { intros n. apply Nat.mod_upper_bound. lia. }
  destruct (digit_char_facts (year / 1000)) as [Ya1 Ya2]; [apply Hdiv; lia|].
  destruct (digit_char_facts (year / 100 mod 10)) as [Yb1 Yb2]; [apply Hmod|].
  destruct (digit_char_facts (year / 10 mod 10)) as [Yc1 Yc2]; [apply Hmod|].
  destruct (digit_char_facts (year mod 10)) as [Yd1 Yd2]; [apply Hmod|].
  destruct (digit_char_facts (month / 10)) as [Ma1 Ma2]; [apply Hdiv; lia|].
  destruct (digit_char_facts (month mod 10)) as [Mb1 Mb2]; [apply Hmod|].
  destruct (digit_char_facts (day / 10)) as [Da1 Da2]; [apply Hdiv; lia|].
  destruct (digit_char_facts (day mod 10)) as [Db1 Db2]; [apply Hmod|].
  unfold get_year, get_month, get_day, str_slice, str_slice_from, isoformat.
  cbn [String.length String.substring Nat.sub].
  rewrite py_int_four_digits, !py_int_two_digits by assumption.
  rewrite Ya2, Yb2, Yc2, Yd2, Ma2, Mb2, Da2, Db2.
  repeat split; f_equal.
  - pose proof (Nat.div_mod_eq year 10).
    pose proof (Nat.div_mod_eq (year / 10) 10).
    pose proof (Nat.div_mod_eq (year / 100) 10).
    replace (year / 100) with (year / 10 / 10) in *
      by (rewrite Nat.Div0.div_div; reflexivity).
    replace (year / 1000) with (year / 10 / 10 / 10) in *
      by (rewrite !Nat.Div0.div_div; reflexivity).
    assert (year / 10 / 10 / 10 < 10).
    { rewrite !Nat.Div0.div_div. apply Hdiv; lia. }
    lia.
  - pose proof (Nat.div_mod_eq month 10). lia.
  - pose proof (Nat.div_mod_eq day 10). lia.
Qed.

Lemma iso_date_round_trip_witness :
  get_year (isoformat 2019 1 27) = Return (Z.of_nat 2019) /\
  get_month (isoformat 2019 1 27) = Return (Z.of_nat 1) /\
  get_day (isoformat 2019 1 27) = Return (Z.of_nat 27).
Proof. apply iso_date_round_trip; lia. Defined.

Lemma substring_beyond (s : string) : forall n m,
  String.length s <= n -> String.substring n m s = EmptyString.
Proof.
  induction s as [|c s IH]; intros [|n] [|m] Hlen; simpl in *;
    try reflexivity; try lia; apply IH; lia.
Qed.

(** X19: a date string too short to hold the field raises [ValueError],
    the error of [int] on an empty string, and never an index error:
    [get_day] on any string of at most 8 characters, and [get_month] on
    any string of at most 5. *)
Theorem short_date_raises_ValueError (date_string : string) :
  String.length date_string <= 8 ->
  get_day date_string = Raise ValueError /\
  (String.length date_string <= 5 -> get_month date_string = Raise ValueError).
Proof.
  intros Hlen. unfold get_day, get_month, str_slice, str_slice_from. split.
  - now rewrite substring_beyond.
  - intros H5. now rewrite substring_beyond.
Qed.

Lemma short_date_raises_ValueError_witness :
  get_day "2019" = Raise ValueError /\
  (String.length "2019" <= 5 -> get_month "2019" = Raise ValueError).
Proof. apply short_date_raises_ValueError. simpl. lia. Defined.
